(** * RFP analysis core: chunking, vector store wrapper and rule-based analyzer

    A shallow embedding of [src/lib/vectorStore.ts] (which also carries
    [DocumentProcessor] and [RfpIngestionService]) and of
    [src/lib/rfpAnalyzer.ts], with the properties the specification states
    about them.

    Conventions.
    - A JavaScript string is a [list ascii]; every [ascii] stands for one code
      unit in the range 0..255 (the Latin-1 part of UTF-16).  Code units above
      255 are outside the model.
    - String positions and lengths are [Z], because the source computes with
      them freely (a start index may be clamped, an index of -1 means "absent").
    - JavaScript numbers that are similarity distances are rationals ([Q]):
      exact arithmetic, no NaN, no rounding.  Sizes, counts and years are
      integers; the one product with a fraction, [maxLength * 0.7], is
      computed on binary64 floats.
    - An async method is a function of the state it reads and writes that
      returns or throws; a loop that may run forever takes fuel and answers
      [None] when the fuel runs out. *)

From Stdlib Require Import List ZArith Lia Bool Ascii String QArith Lqa DecimalString.
From Stdlib Require Floats Uint63 DecimalZ DecimalPos.
Import ListNotations.
Local Open Scope Z_scope.
Local Open Scope list_scope.

(* ================================================================== *)
(** ** JavaScript string primitives used by the sources *)
(* ================================================================== *)

Module JS.

Definition jsstring := list ascii.

Definition str (s : string) : jsstring := list_ascii_of_string s.
Arguments str s%_string.

(** [s.length] *)
Definition length (s : jsstring) : Z := Z.of_nat (List.length s).

(** The class [\s] of regular expressions, which is also the set that
    [String.prototype.trim] strips: TAB, LF, VT, FF, CR, SPACE and NBSP are its
    members below 256. *)
Definition isWhiteSpace (c : ascii) : bool :=
  let n := N_of_ascii c in
  (((9 <=? n) && (n <=? 13)) || (n =? 32) || (n =? 160))%N.

Definition isDigit (c : ascii) : bool :=
  let n := N_of_ascii c in ((48 <=? n) && (n <=? 57))%N.

(** [\w]: ASCII letters, digits and underscore. *)
Definition isWordChar (c : ascii) : bool :=
  let n := N_of_ascii c in
  (((48 <=? n) && (n <=? 57)) || ((65 <=? n) && (n <=? 90))
   || ((97 <=? n) && (n <=? 122)) || (n =? 95))%N.

(** [toLowerCase] on one code unit: A-Z, and the Latin-1 capitals
    U+00C0..U+00DE except the multiplication sign U+00D7. *)
Definition lowerChar (c : ascii) : ascii :=
  let n := N_of_ascii c in
  if (((65 <=? n) && (n <=? 90))
      || ((192 <=? n) && (n <=? 222) && negb (n =? 215)))%N
  then ascii_of_N (n + 32) else c.

Definition toLowerCase (s : jsstring) : jsstring := map lowerChar s.

Fixpoint trimStart (s : jsstring) : jsstring :=
  match s with
  | [] => []
  | c :: r => if isWhiteSpace c then trimStart r else s
  end.

Fixpoint trimEnd (s : jsstring) : jsstring :=
  match s with
  | [] => []
  | c :: r =>
      match trimEnd r with
      | [] => if isWhiteSpace c then [] else [c]
      | r' => c :: r'
      end
  end.

(** [s.trim()] *)
Definition trim (s : jsstring) : jsstring := trimEnd (trimStart s).

(** Positions given to [substring] and [indexOf] are clamped to [0, length]. *)
Definition clamp (n len : Z) : Z := Z.max 0 (Z.min n len).

(** [s.substring(a, b)]: both ends clamped, then swapped when out of order. *)
Definition substring (s : jsstring) (a b : Z) : jsstring :=
  let len := length s in
  let a' := clamp a len in
  let b' := clamp b len in
  let from := Z.min a' b' in
  let to := Z.max a' b' in
  firstn (Z.to_nat (to - from)) (skipn (Z.to_nat from) s).

Fixpoint findChar (c : ascii) (s : jsstring) : option nat :=
  match s with
  | [] => None
  | d :: r =>
      if Ascii.eqb d c then Some O
      else match findChar c r with
           | Some i => Some (S i)
           | None => None
           end
  end.

(** [s.indexOf(c, from)] for a one-character needle; -1 when absent. *)
Definition indexOf (s : jsstring) (c : ascii) (from : Z) : Z :=
  let k := clamp from (length s) in
  match findChar c (skipn (Z.to_nat k) s) with
  | Some i => k + Z.of_nat i
  | None => -1
  end.

Fixpoint startsWith (s prefix : jsstring) : bool :=
  match prefix, s with
  | [], _ => true
  | _ :: _, [] => false
  | p :: ps, c :: r => Ascii.eqb c p && startsWith r ps
  end.

(** [s.includes(t)] *)
Fixpoint includes (s t : jsstring) : bool :=
  startsWith s t ||
  match s with
  | [] => false
  | _ :: r => includes r t
  end.

(** [s.replace(/C+/g, ' ')] for a character class [C]: every maximal run of
    class members becomes one space.  [inRun] says that the previous character
    belonged to the run being replaced. *)
Fixpoint replaceRunsFrom (cls : ascii -> bool) (inRun : bool) (s : jsstring)
  : jsstring :=
  match s with
  | [] => []
  | c :: r =>
      if cls c
      then if inRun then replaceRunsFrom cls true r
           else " "%char :: replaceRunsFrom cls true r
      else c :: replaceRunsFrom cls false r
  end.

Definition replaceRuns (cls : ascii -> bool) (s : jsstring) : jsstring :=
  replaceRunsFrom cls false s.

(** [s.split(c)] for a one-character separator. [cur] is the piece being
    read, reversed. *)
Fixpoint splitCharFrom (sep : ascii) (cur : jsstring) (s : jsstring)
  : list jsstring :=
  match s with
  | [] => [rev cur]
  | c :: r =>
      if Ascii.eqb c sep then rev cur :: splitCharFrom sep [] r
      else splitCharFrom sep (c :: cur) r
  end.

Definition splitChar (sep : ascii) (s : jsstring) : list jsstring :=
  splitCharFrom sep [] s.

(** [arr.sort((a, b) => a - b)] on numbers. *)
Fixpoint insertAsc (x : Z) (l : list Z) : list Z :=
  match l with
  | [] => [x]
  | y :: r => if x <=? y then x :: l else y :: insertAsc x r
  end.

Definition sortAsc (l : list Z) : list Z := fold_right insertAsc [] l.

(** [[...new Set(arr)]]: first occurrences, in order of first appearance. *)
Fixpoint uniqFrom (seen : list jsstring) (l : list jsstring) : list jsstring :=
  match l with
  | [] => []
  | x :: r =>
      if existsb (fun y => if list_eq_dec ascii_dec x y then true else false) seen
      then uniqFrom seen r
      else x :: uniqFrom (x :: seen) r
  end.

Definition uniq (l : list jsstring) : list jsstring := uniqFrom [] l.

(** [s.lastIndexOf(c)] for a one-character needle; -1 when absent. *)
Definition lastIndexOf (s : jsstring) (c : ascii) : Z :=
  match findChar c (rev s) with
  | Some i => length s - 1 - Z.of_nat i
  | None => -1
  end.

(** [arr.join(sep)] *)
Fixpoint join (sep : jsstring) (l : list jsstring) : jsstring :=
  match l with
  | [] => []
  | [x] => x
  | x :: r => x ++ sep ++ join sep r
  end.

(** [s.endsWith(suffix)] *)
Definition endsWith (s suffix : jsstring) : bool :=
  startsWith (rev s) (rev suffix).

(** An integer as a JavaScript number (a binary64 float); exact below 2^53. *)
Definition numberOfZ (z : Z) : PrimFloat.float :=
  if z <? 0 then PrimFloat.opp (PrimFloat.of_uint63 (Uint63.of_Z (- z)))
  else PrimFloat.of_uint63 (Uint63.of_Z z).

(** The literal [0.7]: the float nearest to 7/10. *)
Definition seventyPercent : PrimFloat.float :=
  PrimFloat.div (numberOfZ 7) (numberOfZ 10).

End JS.
Import JS.

(* ================================================================== *)
(** ** DocumentProcessor (vectorStore.ts, lines 257-358) *)
(* ================================================================== *)

Module DocumentProcessor.

Definition isNewline (c : ascii) : bool := Ascii.eqb c "010"%char.
Definition isTab (c : ascii) : bool := Ascii.eqb c "009"%char.

(** [cleanText]: three global replaces, then [trim]. *)
Definition cleanText (text : jsstring) : jsstring :=
  trim (replaceRuns isTab (replaceRuns isNewline (replaceRuns isWhiteSpace text))).

(** The end of the window that starts at [startIndex]: the body of the loop
    between [let endIndex = startIndex + chunkSize] and the [push]. *)
Definition chunkEnd (text : jsstring) (chunkSize startIndex : Z) : Z :=
  let endIndex := startIndex + chunkSize in
  if endIndex <? length text then
    let nextBreak := indexOf text "."%char endIndex in
    let nextQuestion := indexOf text "?"%char endIndex in
    let nextExclamation := indexOf text "!"%char endIndex in
    let breakPoints :=
      sortAsc (filter (fun point => negb (point =? -1))
                      [nextBreak; nextQuestion; nextExclamation]) in
    let spaceBranch :=
      let nextSpace := indexOf text " "%char endIndex in
      if negb (nextSpace =? -1) && (nextSpace - endIndex <? 50)
      then nextSpace else endIndex in
    match breakPoints with
    | b0 :: _ => if b0 - endIndex <? 100 then b0 + 1 else spaceBranch
    | [] => spaceBranch
    end
  else endIndex.

(** The [while (startIndex < text.length)] loop.  One unit of [fuel] pays for
    one evaluation of the loop test; [None] means the fuel ran out before the
    loop was left. *)
Fixpoint chunkLoop (fuel : nat) (text : jsstring) (chunkSize overlap startIndex : Z)
  : option (list jsstring) :=
  match fuel with
  | O => None
  | S fuel' =>
      if startIndex <? length text then
        let endIndex := chunkEnd text chunkSize startIndex in
        match chunkLoop fuel' text chunkSize overlap (endIndex - overlap) with
        | Some rest => Some (trim (substring text startIndex endIndex) :: rest)
        | None => None
        end
      else Some []
  end.

Definition chunkDocument (fuel : nat) (text : jsstring) (chunkSize overlap : Z)
  : option (list jsstring) :=
  if length text <=? chunkSize then Some [text]
  else chunkLoop fuel text chunkSize overlap 0.

(** The defaults of the signature. *)
Definition defaultChunkSize : Z := 1000.
Definition defaultOverlap : Z := 200.

(** The windows [(startIndex, endIndex)] the loop cuts, in order: the same
    loop, recording the two indices instead of the trimmed text. *)
Fixpoint chunkWindows (fuel : nat) (text : jsstring) (chunkSize overlap startIndex : Z)
  : option (list (Z * Z)) :=
  match fuel with
  | O => None
  | S fuel' =>
      if startIndex <? length text then
        let endIndex := chunkEnd text chunkSize startIndex in
        match chunkWindows fuel' text chunkSize overlap (endIndex - overlap) with
        | Some rest => Some ((startIndex, endIndex) :: rest)
        | None => None
        end
      else Some []
  end.

(** Reading the windows back "ignoring the overlapping regions": every window
    contributes the part of it that lies after the end of the previous one. *)
Fixpoint stitch (text : jsstring) (prevEnd : Z) (windows : list (Z * Z)) : jsstring :=
  match windows with
  | [] => []
  | (s, e) :: rest =>
      substring text (Z.max s prevEnd) (Z.max e prevEnd) ++ stitch text (Z.max e prevEnd) rest
  end.

End DocumentProcessor.

(* ================================================================== *)
(** ** VectorStore (vectorStore.ts, lines 8-170) *)
(* ================================================================== *)

Module VectorStore.

Definition Metadata := list (jsstring * jsstring).

Record Document := mkDocument {
  doc_id : jsstring;
  doc_content : jsstring;
  doc_metadata : option Metadata
}.

(** What [collection.query] answers: one inner list per query text.  An
    absent field, and a [null] entry, is [None]. *)
Record QueryResponse := mkQueryResponse {
  ids : list (list jsstring);
  documents : option (list (list (option jsstring)));
  metadatas : option (list (list (option Metadata)));
  distances : option (list (list (option Q)))
}.

Record SearchResult := mkSearchResult {
  id : jsstring;
  content : jsstring;
  metadata : Metadata;
  score : Q
}.

(** The Chroma client and its collections are an external library: the
    wrapper is written against this interface.  [World] is the state of the
    database server; every call may fail with a [ClientErr]. *)
Class ChromaClient := {
  World : Type;
  Collection : Type;
  ClientErr : Type;
  getCollection : jsstring -> World -> (ClientErr + Collection) * World;
  createCollection : jsstring -> World -> (ClientErr + Collection) * World;
  clientDeleteCollection : jsstring -> World -> (ClientErr + unit) * World;
  collectionAdd :
    Collection -> list jsstring -> list jsstring -> list Metadata ->
    World -> (ClientErr + unit) * World;
  collectionQuery :
    Collection -> jsstring -> Z -> World -> (ClientErr + QueryResponse) * World;
  collectionCount : Collection -> World -> (ClientErr + Z) * World
}.

Section Store.
Context {chroma : ChromaClient}.

(** [NotInitialized] is [new Error("Collection not initialized")]; anything
    the client throws is passed on unchanged. *)
Inductive StoreError :=
| NotInitialized
| ClientFailure (e : ClientErr).

(** The two mutable fields of the singleton. *)
Record Store := mkStore {
  collection : option Collection;
  isInitialized : bool
}.

(** [new VectorStore()] *)
Definition fresh : Store := mkStore None false.

Inductive outcome (A : Type) :=
| Returned (a : A)
| Threw (e : StoreError).
Arguments Returned {A} a.
Arguments Threw {A} e.

(** An async method of the singleton: it reads and writes the object and the
    database, and returns or throws. *)
Definition M (A : Type) : Type := Store * World -> outcome A * (Store * World).

Definition ret {A} (a : A) : M A := fun s => (Returned a, s).
Definition throw {A} (e : StoreError) : M A := fun s => (Threw e, s).
Definition bind {A B} (m : M A) (k : A -> M B) : M B :=
  fun s => match m s with
           | (Returned a, s') => k a s'
           | (Threw e, s') => (Threw e, s')
           end.

Notation "x <- m ;; k" := (bind m (fun x => k))
  (at level 61, m at next level, right associativity).
Notation "m ;;; k" := (bind m (fun _ => k))
  (at level 61, right associativity).

(** An awaited client call; a rejection is rethrown. *)
Definition call {A} (f : World -> (ClientErr + A) * World) : M A :=
  fun '(st, w) =>
    match f w with
    | (inr a, w') => (Returned a, (st, w'))
    | (inl e, w') => (Threw (ClientFailure e), (st, w'))
    end.

Definition getStore : M Store := fun '(st, w) => (Returned st, (st, w)).
Definition putStore (st : Store) : M unit := fun '(_, w) => (Returned tt, (st, w)).

Definition defaultCollectionName : jsstring := str "rfp_documents".

(** [initialize]: nothing when already initialized; otherwise attach to the
    collection, creating it when [getCollection] rejects.  (The embedding
    function is handed to the client and plays no other part.) *)
Definition initialize (collectionName : jsstring) : M unit :=
  st <- getStore ;;
  if isInitialized st then ret tt
  else
    fun '(st, w) =>
      match getCollection collectionName w with
      | (inr c, w') => (Returned tt, (mkStore (Some c) true, w'))
      | (inl _, w') =>
          match createCollection collectionName w' with
          | (inr c, w'') => (Returned tt, (mkStore (Some c) true, w''))
          | (inl e, w'') => (Threw (ClientFailure e), (st, w''))
          end
      end.

(** The two guards every method starts with. *)
Definition ensureCollection : M Collection :=
  st <- getStore ;;
  (if isInitialized st then ret tt else initialize defaultCollectionName) ;;;
  st' <- getStore ;;
  match collection st' with
  | Some c => ret c
  | None => throw NotInitialized
  end.

Definition addDocuments (docs : list Document) : M unit :=
  c <- ensureCollection ;;
  let ids := map doc_id docs in
  let contents := map doc_content docs in
  let metadatas :=
    map (fun d => match doc_metadata d with Some m => m | None => [] end) docs in
  call (collectionAdd c ids contents metadatas).

(** [results.distances && results.distances[0] ? results.distances[0][index] : 1] *)
Definition reportedDistance (results : QueryResponse) (index : nat) : option Q :=
  match distances results with
  | Some (d0 :: _) =>
      match nth_error d0 index with
      | Some d => d
      | None => None
      end
  | _ => Some 1%Q
  end.

(** [distance || 0]: [undefined], [null] and [0] are falsy. *)
Definition orZero (d : option Q) : Q :=
  match d with
  | Some q => if Qeq_bool q 0 then 0%Q else q
  | None => 0%Q
  end.

Definition entryAt {A} (field : option (list (list (option A)))) (index : nat)
  : option A :=
  match field with
  | Some (f0 :: _) =>
      match nth_error f0 index with
      | Some e => e
      | None => None
      end
  | _ => None
  end.

Fixpoint mapIndexed {A B} (f : A -> nat -> B) (index : nat) (l : list A) : list B :=
  match l with
  | [] => []
  | x :: r => f x index :: mapIndexed f (S index) r
  end.

Definition toSearchResult (results : QueryResponse) (i : jsstring) (index : nat)
  : SearchResult :=
  let distance := reportedDistance results index in
  {| id := i;
     content := match entryAt (documents results) index with
                | Some s => s
                | None => []
                end;
     metadata := match entryAt (metadatas results) index with
                 | Some m => m
                 | None => []
                 end;
     score := (1 - orZero distance)%Q |}.

(** The mapping of the query answer to the result list. *)
Definition mapResults (results : QueryResponse) : list SearchResult :=
  match ids results with
  | ids0 :: _ =>
      match ids0 with
      | _ :: _ => mapIndexed (toSearchResult results) 0 ids0
      | [] => []
      end
  | [] => []
  end.

Definition similaritySearch (query : jsstring) (limit : Z) : M (list SearchResult) :=
  c <- ensureCollection ;;
  results <- call (collectionQuery c query limit) ;;
  ret (mapResults results).

Definition deleteCollection (collectionName : jsstring) : M unit :=
  call (clientDeleteCollection collectionName) ;;;
  putStore (mkStore None false).

Definition getCollectionCount : M Z :=
  c <- ensureCollection ;;
  call (collectionCount c).

(** The invariant of the two fields: the flag is only set with a handle. *)
Definition consistent (st : Store) : Prop :=
  isInitialized st = true -> collection st <> None.

End Store.

Arguments Returned {chroma A} a.
Arguments Threw {chroma A} e.

(** An in-memory database, for running the wrapper: collections by name,
    each a list of [(id, content)]; a query is answered by [answer]. *)
Definition memoryClient (answer : list (jsstring * jsstring) -> jsstring -> Z -> QueryResponse)
  : ChromaClient :=
  let lookup (name : jsstring) (w : list (jsstring * list (jsstring * jsstring))) :=
    find (fun e => if list_eq_dec ascii_dec (fst e) name then true else false) w in
  {| World := list (jsstring * list (jsstring * jsstring));
     Collection := jsstring;
     ClientErr := jsstring;
     getCollection name w :=
       match lookup name w with
       | Some _ => (inr name, w)
       | None => (inl (str "Collection does not exist"), w)
       end;
     createCollection name w :=
       match lookup name w with
       | Some _ => (inl (str "Collection already exists"), w)
       | None => (inr name, (name, []) :: w)
       end;
     clientDeleteCollection name w :=
       match lookup name w with
       | Some _ =>
           (inr tt,
            filter (fun e => if list_eq_dec ascii_dec (fst e) name then false else true) w)
       | None => (inl (str "Collection does not exist"), w)
       end;
     collectionAdd c ids contents _ w :=
       match lookup c w with
       | Some _ =>
           (inr tt,
            map (fun e => if list_eq_dec ascii_dec (fst e) c
                          then (fst e, snd e ++ combine ids contents) else e) w)
       | None => (inl (str "Collection does not exist"), w)
       end;
     collectionQuery c query limit w :=
       match lookup c w with
       | Some e => (inr (answer (snd e) query limit), w)
       | None => (inl (str "Collection does not exist"), w)
       end;
     collectionCount c w :=
       match lookup c w with
       | Some e => (inr (Z.of_nat (List.length (snd e))), w)
       | None => (inl (str "Collection does not exist"), w)
       end |}.

End VectorStore.

(* ================================================================== *)
(** ** RfpAnalyzer (rfpAnalyzer.ts) *)
(* ================================================================== *)

Module RfpAnalyzer.
Import VectorStore.

(** A value of the [experience] record: an object with [years].  The
    record itself is the list of its entries in the order [Object.values]
    and [Object.entries] give them. *)
Record Experience := mkExperience { years : Z }.

Record CompanyDetails := mkCompanyDetails {
  companyName : jsstring;
  certifications : list jsstring;
  experience : list (jsstring * Experience);
  capabilities : list jsstring;
  registrations : list jsstring
}.

Definition nl : jsstring := ["010"%char].

(** *** Regular expressions of the source, as matchers *)

(** [/k1|k2|.../i.test(s)] for lower-case ASCII alternatives: some
    alternative occurs in [s] up to the case of ASCII letters. *)
Definition matchesAnyCI (alternatives : list jsstring) (s : jsstring) : bool :=
  existsb (fun k => includes (toLowerCase s) k) alternatives.

Fixpoint spanWhile (p : ascii -> bool) (s : jsstring) : jsstring * jsstring :=
  match s with
  | [] => ([], [])
  | c :: r =>
      if p c then let '(a, b) := spanWhile p r in (c :: a, b)
      else ([], s)
  end.

(** [C+] at the head of [s], greedy: the run and what follows it. *)
Definition many1 (p : ascii -> bool) (s : jsstring) : option (jsstring * jsstring) :=
  match spanWhile p s with
  | ([], _) => None
  | (a, r) => Some (a, r)
  end.

(** A lower-case literal at the head of [s] under the [i] flag. *)
Fixpoint literalCI (lit : jsstring) (s : jsstring) : option jsstring :=
  match lit, s with
  | [], _ => Some s
  | _ :: _, [] => None
  | p :: ps, c :: r => if Ascii.eqb (lowerChar c) p then literalCI ps r else None
  end.

(** [/(\d+)\s+years?\s+experience/i] tried at the head of [s]; the answer is
    group 1.  The greedy runs need no backtracking: what follows a run of
    digits must be white space, what follows a run of white space must be a
    letter.  The optional [s] is tried first, then left out. *)
Definition experienceAt (s : jsstring) : option jsstring :=
  match many1 isDigit s with
  | None => None
  | Some (digits, r1) =>
      match many1 isWhiteSpace r1 with
      | None => None
      | Some (_, r2) =>
          match literalCI (str "year") r2 with
          | None => None
          | Some r3 =>
              let tail (r : jsstring) :=
                match many1 isWhiteSpace r with
                | None => None
                | Some (_, r') => literalCI (str "experience") r'
                end in
              let withS :=
                match literalCI (str "s") r3 with
                | Some r4 => tail r4
                | None => None
                end in
              match withS with
              | Some _ => Some digits
              | None => match tail r3 with
                        | Some _ => Some digits
                        | None => None
                        end
              end
          end
      end
  end.

(** [requirement.match(...)]: the leftmost position where the expression
    matches. *)
Fixpoint experienceMatch (s : jsstring) : option jsstring :=
  match experienceAt s with
  | Some digits => Some digits
  | None => match s with
            | [] => None
            | _ :: r => experienceMatch r
            end
  end.

(** [parseInt] of a run of decimal digits (exact; JavaScript rounds above
    2^53). *)
Definition parseInt (digits : jsstring) : Z :=
  fold_left (fun acc c => 10 * acc + (Z.of_N (N_of_ascii c) - 48)) digits 0.

(** Between [lo] and [hi] digits, greedy with backtracking, then [k]. *)
Fixpoint digitsThen (lo hi : nat) (k : jsstring -> bool) (s : jsstring) : bool :=
  match hi with
  | O => Nat.eqb lo 0 && k s
  | S hi' =>
      match s with
      | c :: r => isDigit c && digitsThen (Nat.pred lo) hi' k r
      | [] => false
      end
      || (Nat.eqb lo 0 && k s)
  end.

Definition charThen (c : ascii) (k : jsstring -> bool) (s : jsstring) : bool :=
  match s with
  | d :: r => Ascii.eqb d c && k r
  | [] => false
  end.

Fixpoint anywhere (p : jsstring -> bool) (s : jsstring) : bool :=
  p s || match s with
         | [] => false
         | _ :: r => anywhere p r
         end.

(** [/\d{1,2}\/\d{1,2}\/\d{2,4}/] *)
Definition hasNumericDate (s : jsstring) : bool :=
  anywhere
    (digitsThen 1 2 (charThen "/" (digitsThen 1 2 (charThen "/"
       (digitsThen 2 4 (fun _ => true))))))%char s.

Definition monthNames : list jsstring :=
  [str "january"; str "february"; str "march"; str "april"; str "may";
   str "june"; str "july"; str "august"; str "september"; str "october";
   str "november"; str "december"].

(** A month name at the head of [s] with a word boundary after it. *)
Definition monthAt (s : jsstring) : bool :=
  existsb (fun m => match literalCI m s with
                    | Some (c :: _) => negb (isWordChar c)
                    | Some [] => true
                    | None => false
                    end) monthNames.

(** [/\b(January|...|December)\b/i]; [prevWord] says that the character
    before the head of [s] is a word character. *)
Fixpoint hasMonthFrom (prevWord : bool) (s : jsstring) : bool :=
  (negb prevWord && monthAt s)
  || match s with
     | [] => false
     | c :: r => hasMonthFrom (isWordChar c) r
     end.

Definition hasMonth (s : jsstring) : bool := hasMonthFrom false s.

(** [/^[\â€¢\-\*]/]: the class as the source file spells it; its member
    U+20AC is above 255 and so never the head of a modelled string. *)
Definition startsWithBullet (s : jsstring) : bool :=
  match s with
  | c :: _ =>
      let n := N_of_ascii c in
      ((n =? 226) || (n =? 162) || (n =? 45) || (n =? 42))%N
  | [] => false
  end.

(** [/^\d+[\.\)]/] *)
Definition startsWithNumbering (s : jsstring) : bool :=
  match many1 isDigit s with
  | Some (_, c :: _) => Ascii.eqb c "."%char || Ascii.eqb c ")"%char
  | _ => false
  end.

(** [/[.;]\s+/] as the separator of [split]; [skip] says that the white space
    of a separator is being consumed, [cur] is the section being read,
    reversed. *)
Fixpoint splitSectionsFrom (skip : bool) (cur : jsstring) (s : jsstring)
  : list jsstring :=
  match s with
  | [] => [rev cur]
  | c :: r =>
      if skip && isWhiteSpace c then splitSectionsFrom true cur r
      else if (Ascii.eqb c "."%char || Ascii.eqb c ";"%char)
              && match r with
                 | d :: _ => isWhiteSpace d
                 | [] => false
                 end
      then rev cur :: splitSectionsFrom true [] r
      else splitSectionsFrom false (c :: cur) r
  end.

Definition splitSections (text : jsstring) : list jsstring :=
  splitSectionsFrom false [] text.

(** *** Eligibility *)

Definition extractRequirements (text : jsstring) : list jsstring :=
  fold_left
    (fun requirements line =>
       let trimmedLine := trim line in
       if startsWithBullet trimmedLine
          || startsWithNumbering trimmedLine
          || matchesAnyCI [str "must have"; str "required"; str "shall have";
                           str "minimum"; str "at least"] trimmedLine
       then if 10 <? length trimmedLine
            then requirements ++ [trimmedLine]
            else requirements
       else requirements)
    (splitChar "010"%char text) [].

Definition checkRequirementMet (company : CompanyDetails) (requirement : jsstring)
  : bool :=
  let lower := toLowerCase requirement in
  if includes lower (str "certification") || includes lower (str "certified")
  then existsb (fun cert => includes lower (toLowerCase cert))
               (certifications company)
  else
    match experienceMatch requirement with
    | Some digits =>
        let yearsRequired := parseInt digits in
        existsb (fun exp => yearsRequired <=? years exp)
                (map snd (experience company))
    | None =>
        existsb (fun capability => includes lower (toLowerCase capability))
                (capabilities company)
    end.

(** A number in a template string. *)
Definition showZ (z : Z) : jsstring :=
  str (NilZero.string_of_int (Z.to_int z)).

Definition bullets (items : list jsstring) : jsstring :=
  List.concat (map (fun item => str "- " ++ item ++ nl) items).

Definition generateEligibilityReport (company : CompanyDetails) (eligible : bool)
  (missingRequirements : list jsstring) (analysisText : jsstring) : jsstring :=
  str "# Eligibility Analysis Report" ++ nl ++ nl
  ++ str "## Overall Assessment: "
  ++ (if eligible then str "ELIGIBLE" else str "NOT ELIGIBLE") ++ nl ++ nl
  ++ str "## Company Qualifications" ++ nl ++ nl
  ++ str "Company Name: " ++ companyName company ++ nl ++ nl
  ++ str "### Certifications" ++ nl
  ++ (match certifications company with
      | _ :: _ => bullets (certifications company)
      | [] => str "- No certifications provided" ++ nl
      end)
  ++ nl ++ str "### Experience" ++ nl
  ++ List.concat (map (fun '(area, details) =>
                    str "- " ++ area ++ str ": " ++ showZ (years details)
                    ++ str " years" ++ nl)
                 (experience company))
  ++ nl ++ str "## RFP Requirements Analysis" ++ nl ++ nl
  ++ (match missingRequirements with
      | _ :: _ => str "### Missing Requirements" ++ nl ++ nl
                  ++ bullets missingRequirements
      | [] => str "All requirements appear to be met based on available information."
              ++ nl
      end)
  ++ nl ++ str "## Raw Analysis" ++ nl ++ nl
  ++ analysisText.

Record EligibilityResult := mkEligibilityResult {
  eligible : bool;
  missingRequirements : list jsstring;
  eligibilityReport : jsstring
}.

(** The body of [analyzeEligibility] after the retrieval. *)
Definition assessEligibility (company : CompanyDetails)
  (requirementResults : list SearchResult) : EligibilityResult :=
  let '(missing, ok, analysisText) :=
    match requirementResults with
    | _ :: _ =>
        fold_left
          (fun '(missing, ok, analysisText) result =>
             let requirements := extractRequirements (content result) in
             let '(missing', ok') :=
               fold_left
                 (fun '(missing, ok) req =>
                    if negb (checkRequirementMet company req)
                    then (missing ++ [req], false)
                    else (missing, ok))
                 requirements (missing, ok) in
             (missing', ok', analysisText ++ content result ++ nl ++ nl))
          requirementResults ([], true, [])
    | [] =>
        ([], true, str "No specific eligibility requirements found in the RFP.")
    end in
  {| eligible := ok;
     missingRequirements := missing;
     eligibilityReport := generateEligibilityReport company ok missing analysisText |}.

Definition eligibilityQuery : jsstring :=
  str "What are the mandatory eligibility requirements, certifications, and qualifications needed to bid on this RFP?".

Definition analyzeEligibility {chroma : ChromaClient} (company : CompanyDetails)
  (rfpId : jsstring) : M EligibilityResult :=
  bind (similaritySearch eligibilityQuery 10)
       (fun requirementResults => ret (assessEligibility company requirementResults)).

(** *** Submission requirements *)

Definition formatGate : list jsstring :=
  [str "page limit"; str "font size"; str "margin"; str "spacing";
   str "format"; str "template"].

Definition formatWords : list jsstring :=
  [str "page"; str "font"; str "margin"; str "spacing"; str "format";
   str "template"; str "size"; str "header"; str "footer"].

Definition documentWords : list jsstring :=
  [str "submit"; str "include"; str "attach"; str "provide"; str "form";
   str "document"; str "certificate"].

Definition deadlineWords : list jsstring :=
  [str "due"; str "deadline"; str "by"; str "before"; str "date";
   str "schedule"].

(** The shape the three extractors share: a test on the whole text, then the
    trimmed lines that pass the line test. *)
Definition linesMatching (gate line : jsstring -> bool) (text : jsstring)
  : list jsstring :=
  if gate text
  then fold_left (fun acc l => if line l then acc ++ [trim l] else acc)
                 (splitChar "010"%char text) []
  else [].

Definition extractFormatRequirements (text : jsstring) : list jsstring :=
  linesMatching (matchesAnyCI formatGate) (matchesAnyCI formatWords) text.

Definition extractDocumentRequirements (text : jsstring) : list jsstring :=
  linesMatching (matchesAnyCI documentWords) (matchesAnyCI documentWords) text.

Definition extractDeadlines (text : jsstring) : list jsstring :=
  linesMatching (matchesAnyCI deadlineWords)
    (fun line => matchesAnyCI deadlineWords line
                 && (hasNumericDate line || hasMonth line))
    text.

Definition checkboxes (items : list jsstring) : jsstring :=
  List.concat (map (fun item => str "- [ ] " ++ item ++ nl) items).

(** The five lines that close every checklist. *)
Definition finalVerification : jsstring :=
  nl ++ str "## Final Verification" ++ nl ++ nl
  ++ str "- [ ] All forms completely filled out" ++ nl
  ++ str "- [ ] All required signatures included" ++ nl
  ++ str "- [ ] Correct number of copies prepared" ++ nl
  ++ str "- [ ] Proposal properly sealed and marked" ++ nl
  ++ str "- [ ] Delivery method arranged for on-time submission" ++ nl.

Definition generateSubmissionChecklist (formatReqs docReqs deadlines : list jsstring)
  : jsstring :=
  str "# RFP Submission Checklist" ++ nl ++ nl
  ++ str "## Important Deadlines" ++ nl ++ nl
  ++ (match deadlines with
      | _ :: _ => checkboxes deadlines
      | [] => str "- [ ] No specific deadlines found - verify due date in the RFP" ++ nl
      end)
  ++ nl ++ str "## Format Requirements" ++ nl ++ nl
  ++ (match formatReqs with
      | _ :: _ => checkboxes formatReqs
      | [] => str "- [ ] No specific format requirements found - check the RFP for details" ++ nl
      end)
  ++ nl ++ str "## Required Documents" ++ nl ++ nl
  ++ (match docReqs with
      | _ :: _ => checkboxes docReqs
      | [] => str "- [ ] No specific document requirements found - check the RFP for details" ++ nl
      end)
  ++ finalVerification.

Record SubmissionResult := mkSubmissionResult {
  formatRequirements : list jsstring;
  documentRequirements : list jsstring;
  deadlines : list jsstring;
  submissionChecklist : jsstring
}.

(** The three arrays the loop over the retrieved chunks fills. *)
Definition collectBuckets (submissionResults : list SearchResult)
  : list jsstring * list jsstring * list jsstring :=
  fold_left
    (fun '(formatRequirements, documentRequirements, deadlines) result =>
       (formatRequirements ++ extractFormatRequirements (content result),
        documentRequirements ++ extractDocumentRequirements (content result),
        deadlines ++ extractDeadlines (content result)))
    submissionResults ([], [], []).

(** The body of [extractSubmissionRequirements] after the retrieval. *)
Definition summarizeSubmission (submissionResults : list SearchResult)
  : SubmissionResult :=
  let '(formatRequirements, documentRequirements, deadlines) :=
    collectBuckets submissionResults in
  let submissionChecklist :=
    generateSubmissionChecklist formatRequirements documentRequirements deadlines in
  {| formatRequirements := uniq formatRequirements;
     documentRequirements := uniq documentRequirements;
     deadlines := uniq deadlines;
     submissionChecklist := submissionChecklist |}.

Definition submissionQuery : jsstring :=
  str "What are the submission requirements, document format, page limits, and deadlines for this RFP?".

Definition extractSubmissionRequirements {chroma : ChromaClient} (rfpId : jsstring)
  : M SubmissionResult :=
  bind (similaritySearch submissionQuery 10)
       (fun submissionResults => ret (summarizeSubmission submissionResults)).

(** *** Contract risks *)

Definition riskTerms : list jsstring :=
  [str "termination"; str "unilateral"; str "waive"; str "without cause";
   str "sole discretion"; str "unlimited liability"; str "indemnification";
   str "warranty"; str "liquidated damages"; str "penalties"; str "remedy";
   str "exclusive"; str "limitation of liability"].

Definition memberOf (x : jsstring) (l : list jsstring) : bool :=
  existsb (fun y => if list_eq_dec ascii_dec y x then true else false) l.

Definition extractRiskyClauses (text : jsstring) : list jsstring :=
  fold_left
    (fun riskyClauses section =>
       match find (fun term => includes (toLowerCase section) term) riskTerms with
       | Some _ =>
           let trimmedSection := trim section ++ str "." in
           if (20 <? length trimmedSection) && negb (memberOf trimmedSection riskyClauses)
           then riskyClauses ++ [trimmedSection]
           else riskyClauses
       | None => riskyClauses
       end)
    (splitSections text) [].

Definition highRiskTerms : list jsstring :=
  [str "unlimited liability"; str "indemnification"; str "without cause";
   str "sole discretion"].

Definition mediumRiskTerms : list jsstring :=
  [str "termination"; str "warranty"; str "liquidated damages"; str "penalties"].

Definition assessRiskLevel (clause : jsstring) : jsstring :=
  if existsb (fun term => includes (toLowerCase clause) term) highRiskTerms
  then str "High"
  else if existsb (fun term => includes (toLowerCase clause) term) mediumRiskTerms
  then str "Medium"
  else str "Low".

Definition suggestModification (clause : jsstring) : jsstring :=
  let lower := toLowerCase clause in
  if includes lower (str "termination")
  then str "Add requirement for reasonable notice period (e.g., 30 days) before termination."
  else if includes lower (str "unilateral") || includes lower (str "sole discretion")
  then str "Request mutual agreement language or objective criteria for decisions."
  else if includes lower (str "unlimited liability") || includes lower (str "indemnification")
  then str "Request cap on liability proportional to contract value."
  else if includes lower (str "warranty")
  then str "Clarify warranty scope and limit duration to reasonable period."
  else if includes lower (str "liquidated damages") || includes lower (str "penalties")
  then str "Request reduction in amounts and/or grace period for cure."
  else str "Request clarification or modification to balance rights between parties.".

(** [Record<string, string>] as the list of its entries, for keys that are
    not numbers (a clause ends with a full stop): [obj[k] = v] and [obj[k]]. *)
Fixpoint setKey (k v : jsstring) (obj : list (jsstring * jsstring))
  : list (jsstring * jsstring) :=
  match obj with
  | [] => [(k, v)]
  | (k', v') :: r =>
      if list_eq_dec ascii_dec k' k then (k', v) :: r
      else (k', v') :: setKey k v r
  end.

Fixpoint getKey (k : jsstring) (obj : list (jsstring * jsstring)) : option jsstring :=
  match obj with
  | [] => None
  | (k', v') :: r => if list_eq_dec ascii_dec k' k then Some v' else getKey k r
  end.

(** [modifications[clause] || "Request clarification or modification."] *)
Definition modificationOr (modifications : list (jsstring * jsstring))
  (clause : jsstring) : jsstring :=
  match getKey clause modifications with
  | Some ((_ :: _) as v) => v
  | _ => str "Request clarification or modification."
  end.

Definition generateRiskReport (riskyClauses : list jsstring)
  (modifications : list (jsstring * jsstring)) (analysisText : jsstring) : jsstring :=
  str "# Contract Risk Analysis Report" ++ nl ++ nl
  ++ (match riskyClauses with
      | _ :: _ =>
          str "## Identified Risky Clauses" ++ nl ++ nl
          ++ List.concat
               (mapIndexed
                  (fun clause index =>
                     str "### Risk " ++ showZ (Z.of_nat index + 1) ++ nl ++ nl
                     ++ str "**Clause:** " ++ clause ++ nl ++ nl
                     ++ str "**Suggested Modification:** "
                     ++ modificationOr modifications clause ++ nl ++ nl
                     ++ str "**Risk Level:** " ++ assessRiskLevel clause ++ nl ++ nl)
                  0 riskyClauses)
      | [] =>
          str "No significant contract risks identified based on available information."
          ++ nl ++ nl
      end)
  ++ str "## General Recommendations" ++ nl ++ nl
  ++ str "1. Perform a detailed legal review of all contract terms" ++ nl
  ++ str "2. Request clarification on any ambiguous language" ++ nl
  ++ str "3. Negotiate modification of high-risk clauses before submission" ++ nl
  ++ str "4. Document all assumptions in your proposal" ++ nl ++ nl
  ++ str "## Raw Analysis" ++ nl ++ nl
  ++ analysisText.

Record RiskResult := mkRiskResult {
  riskyClauses : list jsstring;
  suggestedModifications : list (jsstring * jsstring);
  riskReport : jsstring
}.

(** The two collections the loop over the retrieved chunks fills, and the
    raw text. *)
Definition collectRisks (contractResults : list SearchResult)
  : list jsstring * list (jsstring * jsstring) * jsstring :=
  fold_left
    (fun '(riskyClauses, suggestedModifications, riskText) result =>
       let '(riskyClauses', suggestedModifications') :=
         fold_left
           (fun '(clauses, modifications) clause =>
              (clauses ++ [clause],
               setKey clause (suggestModification clause) modifications))
           (extractRiskyClauses (content result))
           (riskyClauses, suggestedModifications) in
       (riskyClauses', suggestedModifications',
        riskText ++ content result ++ nl ++ nl))
    contractResults ([], [], []).

(** The body of [analyzeContractRisks] after the retrieval. *)
Definition assessRisks (contractResults : list SearchResult) : RiskResult :=
  let '(riskyClauses, suggestedModifications, riskText) :=
    collectRisks contractResults in
  {| riskyClauses := riskyClauses;
     suggestedModifications := suggestedModifications;
     riskReport := generateRiskReport riskyClauses suggestedModifications riskText |}.

Definition riskQuery : jsstring :=
  str "What are the contract terms, conditions, and clauses that might put vendors at a disadvantage?".

Definition analyzeContractRisks {chroma : ChromaClient} (rfpId : jsstring)
  : M RiskResult :=
  bind (similaritySearch riskQuery 10)
       (fun contractResults => ret (assessRisks contractResults)).

(** [lastPeriod > maxLength * 0.7], on JavaScript numbers. *)
Definition pastSeventyPercent (lastPeriod maxLength : Z) : bool :=
  PrimFloat.ltb (PrimFloat.mul (numberOfZ maxLength) seventyPercent)
                (numberOfZ lastPeriod).

Definition summarizeText (text : jsstring) (maxLength : Z) : jsstring :=
  if length text <=? maxLength then text
  else
    let summary := substring text 0 maxLength in
    let lastPeriod := lastIndexOf summary "."%char in
    let summary :=
      if pastSeventyPercent lastPeriod maxLength
      then substring summary 0 (lastPeriod + 1)
      else summary in
    summary ++ str " [...]".

(** The lines of the summary that report the eligibility analysis. *)
Definition eligibilitySection (eligible : bool) (missingRequirements : list jsstring)
  : jsstring :=
  str "## Eligibility Assessment" ++ nl ++ nl
  ++ str "**Overall Eligibility:** "
  ++ (if eligible then str "Eligible to bid" else str "Not eligible to bid")
  ++ nl ++ nl
  ++ (match missingRequirements with
      | _ :: _ =>
          str "**Missing Requirements:**" ++ nl ++ nl
          ++ bullets missingRequirements ++ nl
      | [] =>
          if negb eligible
          then str "**Missing Requirements:** Specific requirements could not be determined."
               ++ nl ++ nl
          else str "**All requirements met.**" ++ nl ++ nl
      end).

Definition recommendation (eligible : bool) : jsstring :=
  str "## Recommendation" ++ nl ++ nl
  ++ (if eligible
      then str "Based on the analysis, it is recommended to **proceed with bidding** on this RFP. Company meets all the eligibility criteria."
      else str "Based on the analysis, it is recommended to **NOT proceed with bidding** on this RFP due to missing requirements.")
  ++ nl ++ nl.

Definition overviewSection (overviewResults : list SearchResult) : jsstring :=
  str "# RFP Analysis Summary" ++ nl ++ nl
  ++ str "## Overview" ++ nl ++ nl
  ++ (match overviewResults with
      | _ :: _ =>
          summarizeText (join (nl ++ nl) (map content overviewResults)) 500
          ++ nl ++ nl
      | [] => str "No overview information found." ++ nl ++ nl
      end).

Definition overviewQuery : jsstring :=
  str "What is the overall scope, purpose, and key requirements of this RFP?".

Definition generateRfpSummary {chroma : ChromaClient} (company : CompanyDetails)
  (rfpId : jsstring) : M jsstring :=
  bind (similaritySearch overviewQuery 5) (fun overviewResults =>
  bind (analyzeEligibility company rfpId) (fun eligibility =>
  bind (extractSubmissionRequirements rfpId) (fun submission =>
  bind (analyzeContractRisks rfpId) (fun risks =>
  ret (overviewSection overviewResults
       ++ eligibilitySection (eligible eligibility) (missingRequirements eligibility)
       ++ str "## Submission Requirements" ++ nl ++ nl
       ++ submissionChecklist submission ++ nl ++ nl
       ++ str "## Contract Risk Analysis" ++ nl ++ nl
       ++ summarizeText (riskReport risks) 500 ++ nl ++ nl
       ++ recommendation (eligible eligibility)))))).

End RfpAnalyzer.

(* ================================================================== *)
(** ** RfpIngestionService and processFile (vectorStore.ts, lines 179-303) *)
(* ================================================================== *)

Module RfpIngestionService.
Import VectorStore RfpAnalyzer.

(** The browser's [File] as the service sees it: name, MIME type and size,
    and what the two readers make of its bytes - [pdfText] is the text
    [pdfParse] extracts ([None] when it throws), [textResult] is
    [e.target.result] of [FileReader.readAsText] ([None] when the reader
    reports an error). *)
Record File := mkFile {
  fileName : jsstring;
  fileType : jsstring;
  fileSize : Z;
  pdfText : option jsstring;
  textResult : option jsstring
}.

(** The [metadata] argument of [ingestRfpDocument]. *)
Record RfpMetadata := mkRfpMetadata {
  title : jsstring;
  agency : jsstring;
  dueDate : option jsstring;
  rfpNumber : option jsstring
}.

(** [DocumentProcessor.processPdf]: the message of the error it throws, or
    the text. *)
Definition processPdf (file : File) : jsstring + jsstring :=
  match pdfText file with
  | Some text => inr text
  | None => inl (str "Failed to parse PDF file")
  end.

(** [DocumentProcessor.processTextFile]: an empty result is falsy and
    rejected like a missing one. *)
Definition processTextFile (file : File) : jsstring + jsstring :=
  match textResult file with
  | Some ((_ :: _) as text) => inr text
  | Some [] => inl (str "Failed to read text file")
  | None => inl (str "Error reading text file")
  end.

(** [DocumentProcessor.processFile] *)
Definition processFile (file : File) : jsstring + jsstring :=
  if list_eq_dec ascii_dec (fileType file) (str "application/pdf")
  then processPdf file
  else if (if list_eq_dec ascii_dec (fileType file) (str "text/plain")
           then true else false)
          || endsWith (fileName file) (str ".txt")
  then processTextFile file
  else inl (str "Unsupported file type: " ++ fileType file).

(** [documentMetadata]: the fields of [metadata] that are present, then the
    five the service adds.  Numbers are written in decimal. *)
Definition documentMetadata (file : File) (metadata : RfpMetadata)
  (rfpId now : jsstring) : Metadata :=
  [(str "title", title metadata); (str "agency", agency metadata)]
  ++ (match dueDate metadata with Some d => [(str "dueDate", d)] | None => [] end)
  ++ (match rfpNumber metadata with Some n => [(str "rfpNumber", n)] | None => [] end)
  ++ [(str "fileName", fileName file);
      (str "fileType", fileType file);
      (str "fileSize", showZ (fileSize file));
      (str "dateIngested", now);
      (str "id", rfpId)].

(** [chunks.map((chunk, index) => ({ id, content, metadata }))] *)
Definition chunkRecords (rfpId : jsstring) (base : Metadata) (chunks : list jsstring)
  : list Document :=
  mapIndexed
    (fun chunk index =>
       {| doc_id := rfpId ++ str "-chunk-" ++ showZ (Z.of_nat index);
          doc_content := chunk;
          doc_metadata :=
            Some (base ++ [(str "chunkIndex", showZ (Z.of_nat index));
                           (str "totalChunks", showZ (Z.of_nat (List.length chunks)))]) |})
    0 chunks.

Section Service.
Context {chroma : ChromaClient}.

(** [error.message] of what the client throws. *)
Variable clientMessage : ClientErr -> jsstring.

Definition errorMessage (e : StoreError) : jsstring :=
  match e with
  | NotInitialized => str "Collection not initialized"
  | ClientFailure ce => clientMessage ce
  end.

Definition ingestionFailure (message : jsstring) : jsstring :=
  str "Failed to ingest RFP document: " ++ message.

(** [ingestRfpDocument].  [rfpId] is what [uuidv4()] gives and [now] what
    [new Date().toISOString()] gives at the call.  The answer is the id, or
    the message of the error thrown; [None] stands for a chunking loop that
    runs out of fuel. *)
Definition ingestRfpDocument (file : File) (metadata : RfpMetadata)
  (rfpId now : jsstring) (s : Store * World)
  : option ((jsstring + jsstring) * (Store * World)) :=
  match processFile file with
  | inl message => Some (inl (ingestionFailure message), s)
  | inr content =>
      let base := documentMetadata file metadata rfpId now in
      let cleanedContent := DocumentProcessor.cleanText content in
      match DocumentProcessor.chunkDocument (S (List.length cleanedContent))
              cleanedContent DocumentProcessor.defaultChunkSize
              DocumentProcessor.defaultOverlap with
      | None => None
      | Some chunks =>
          match addDocuments (chunkRecords rfpId base chunks) s with
          | (Returned _, s') => Some (inr rfpId, s')
          | (Threw e, s') => Some (inl (ingestionFailure (errorMessage e)), s')
          end
      end
  end.

(** [getDocumentCount] *)
Definition getDocumentCount : M Z := getCollectionCount.

(** [resetDatabase]: delete the collection, then initialize again. *)
Definition resetDatabase : M unit :=
  bind (deleteCollection (str "rfp_documents"))
       (fun _ => initialize defaultCollectionName).

End Service.

End RfpIngestionService.

(* ================================================================== *)
(** ** The states the singleton can be in *)
(* ================================================================== *)

Module Lifecycle.
Import VectorStore.

(** The public methods of the store. *)
Inductive method {chroma : ChromaClient} : forall A : Type, M A -> Prop :=
| m_initialize (name : jsstring) : method unit (initialize name)
| m_addDocuments (docs : list Document) : method unit (addDocuments docs)
| m_similaritySearch (query : jsstring) (limit : Z) :
    method (list SearchResult) (similaritySearch query limit)
| m_deleteCollection (name : jsstring) : method unit (deleteCollection name)
| m_getCollectionCount : method Z getCollectionCount.

(** What the singleton and the database can have become after any number of
    method calls, returned or thrown, with the database free to change in
    between (other clients use it too). *)
Inductive reachable {chroma : ChromaClient} : Store * World -> Prop :=
| reach_new (w : World) : reachable (fresh, w)
| reach_call (A : Type) (m : M A) (s : Store * World) :
    reachable s -> method A m -> reachable (snd (m s))
| reach_world (st : Store) (w w' : World) :
    reachable (st, w) -> reachable (st, w').

End Lifecycle.

(* ================================================================== *)
(** ** Auxiliary notions for the proofs *)
(* ================================================================== *)

Module Shape.

(** The shape of a string after [replace(/\s+/g, ' ')]: its only white space
    is the space character, and no two of them are adjacent.  [prevWs] says
    that the character before the head is white space. *)
Fixpoint tidyFrom (prevWs : bool) (s : jsstring) : Prop :=
  match s with
  | [] => True
  | c :: r =>
      if isWhiteSpace c
      then c = " "%char /\ prevWs = false /\ tidyFrom true r
      else tidyFrom false r
  end.

(** The text of the window [(s, e)] as [chunkDocument] emits it. *)
Definition emitted (text : jsstring) (w : Z * Z) : jsstring :=
  trim (substring text (fst w) (snd w)).

Fixpoint ascending (l : list Q) : Prop :=
  match l with
  | a :: (b :: _) as r => (a <= b)%Q /\ ascending r
  | _ => True
  end.

Fixpoint descending (l : list Q) : Prop :=
  match l with
  | a :: (b :: _) as r => (b <= a)%Q /\ descending r
  | _ => True
  end.

(** Consecutive windows: each one starts [overlap] before the end of the
    one before it. *)
Fixpoint chained (overlap : Z) (windows : list (Z * Z)) : Prop :=
  match windows with
  | w1 :: ((w2 :: _) as rest) => fst w2 = snd w1 - overlap /\ chained overlap rest
  | _ => True
  end.

(** [c] occurs in [t] as a contiguous piece. *)
Definition pieceOf (c t : jsstring) : Prop :=
  exists before after, t = before ++ c ++ after.

(** A text of 1001 characters that begins with a space: one space, then a
    thousand letters. *)
Definition paddedText : jsstring := " "%char :: repeat "a"%char 1000.

(** A short text for running the chunker with a window of 10 and an overlap
    of 3. *)
Definition sampleText : jsstring :=
  str "Hello world. This is a test! And more text here".

End Shape.
Import Shape.

(* ================================================================== *)
(** ** The fixed inputs of the specification's examples *)
(* ================================================================== *)

Module Fixtures.
Import VectorStore RfpAnalyzer.

Definition liabilitySentence : jsstring :=
  str "Vendor agrees to unlimited liability for all damages.".

Definition terminatedSentence : jsstring :=
  str "This agreement may be terminated by either party.".

Definition terminationSentence : jsstring :=
  str "This agreement is subject to termination by either party.".

(** [{certifications:["ISO 9001"], experience:{"IT":{years:5}},
    capabilities:["Cloud"]}], with the two fields the example leaves open. *)
Definition fixedProfile (name : jsstring) (regs : list jsstring) : CompanyDetails :=
  {| companyName := name;
     certifications := [str "ISO 9001"];
     experience := [(str "IT", mkExperience 5)];
     capabilities := [str "Cloud"];
     registrations := regs |}.

(** A database that answers every query with the same response. *)
Definition cannedClient (response : QueryResponse) : ChromaClient :=
  memoryClient (fun _ _ _ => response).

(** Two retrieved chunks that share a line, as overlapping chunks do. *)
Definition submitLine : jsstring := str "Submit the signed form".

Definition repeatedLineResponse : QueryResponse :=
  {| ids := [[str "d-chunk-0"; str "d-chunk-1"]];
     documents := Some [[Some submitLine; Some submitLine]];
     metadatas := Some [[None; None]];
     distances := Some [[Some (1 # 10); Some (2 # 10)]] |}%Q.

(** One retrieved chunk with a requirement the fixed profile does not meet. *)
Definition requirementResponse : QueryResponse :=
  {| ids := [[str "d-chunk-0"]];
     documents := Some [[Some (str "- Must have 10 years experience")]];
     metadatas := Some [[None]];
     distances := Some [[Some (1 # 10)]] |}%Q.

(** An answer without the [distances] field. *)
Definition noDistancesResponse : QueryResponse :=
  {| ids := [[str "a"]];
     documents := Some [[Some (str "X")]];
     metadatas := Some [[None]];
     distances := None |}.

(** An answer whose distances are not in ascending order. *)
Definition unsortedResponse : QueryResponse :=
  {| ids := [[str "a"; str "b"]];
     documents := Some [[Some (str "X"); Some (str "Y")]];
     metadatas := Some [[None; None]];
     distances := Some [[Some (1 # 2); Some (1 # 4)]] |}%Q.

(** An answer in ascending order of distance, as a nearest-neighbour query
    gives it. *)
Definition sortedResponse : QueryResponse :=
  {| ids := [[str "a"; str "b"]];
     documents := Some [[Some (str "X"); Some (str "Y")]];
     metadatas := Some [[None; None]];
     distances := Some [[Some (1 # 4); Some (1 # 2)]] |}%Q.

(** A database that starts empty and answers queries without distances. *)
Definition plainClient : ChromaClient := cannedClient noDistancesResponse.

Definition sampleDocument : Document :=
  {| doc_id := str "a"; doc_content := str "X"; doc_metadata := None |}.

(** Three uploads: a Word file, an empty text file and a small text file. *)
Definition wordFile : RfpIngestionService.File :=
  {| RfpIngestionService.fileName := str "rfp.docx";
     RfpIngestionService.fileType :=
       str "application/vnd.openxmlformats-officedocument.wordprocessingml.document";
     RfpIngestionService.fileSize := 2048;
     RfpIngestionService.pdfText := None;
     RfpIngestionService.textResult := None |}.

Definition emptyTextFile : RfpIngestionService.File :=
  {| RfpIngestionService.fileName := str "rfp.txt";
     RfpIngestionService.fileType := str "text/plain";
     RfpIngestionService.fileSize := 0;
     RfpIngestionService.pdfText := None;
     RfpIngestionService.textResult := Some [] |}.

Definition smallTextFile : RfpIngestionService.File :=
  {| RfpIngestionService.fileName := str "rfp.txt";
     RfpIngestionService.fileType := str "text/plain";
     RfpIngestionService.fileSize := 23;
     RfpIngestionService.pdfText := None;
     RfpIngestionService.textResult := Some (str "Must  have ISO 9001.  ") |}.

Definition sampleMetadata : RfpIngestionService.RfpMetadata :=
  {| RfpIngestionService.title := str "Cloud services";
     RfpIngestionService.agency := str "GSA";
     RfpIngestionService.dueDate := Some (str "2025-01-31");
     RfpIngestionService.rfpNumber := None |}.

End Fixtures.
Import Fixtures.

(* ================================================================== *)
(** * Properties *)
(* ================================================================== *)

Import DocumentProcessor.

(** ** cleanText *)

Section CleanText.

Lemma replaceRuns_tidy (s : jsstring) (b : bool) :
  tidyFrom b (replaceRunsFrom isWhiteSpace b s).
Proof.
  revert b; induction s as [|c r IH]; intros b; simpl; [exact I|].
  destruct (isWhiteSpace c) eqn:Hc.
  - destruct b; simpl.
    + apply IH.
    + change (isWhiteSpace " "%char) with true; cbv iota.
      repeat split; apply IH.
  - simpl; rewrite Hc; apply IH.
Qed.

Lemma tidy_replaceRuns_fix (s : jsstring) (b : bool) :
  tidyFrom b s -> replaceRunsFrom isWhiteSpace b s = s.
Proof.
  revert b; induction s as [|c r IH]; intros b H; simpl in *; [reflexivity|].
  destruct (isWhiteSpace c) eqn:Hc.
  - destruct H as (-> & -> & H). f_equal. now apply IH.
  - f_equal. now apply IH.
Qed.

Lemma tidy_replaceRuns_other (cls : ascii -> bool) (s : jsstring) (b b' : bool) :
  (forall c, cls c = true -> isWhiteSpace c = true /\ c <> " "%char) ->
  tidyFrom b s -> replaceRunsFrom cls b' s = s.
Proof.
  intros Hcls; revert b b'; induction s as [|c r IH]; intros b b' H; simpl in *;
    [reflexivity|].
  destruct (cls c) eqn:Hc.
  - destruct (Hcls c Hc) as [Hw Hne]. rewrite Hw in H. now destruct H as (-> & _).
  - f_equal. destruct (isWhiteSpace c).
    + destruct H as (_ & _ & H). now apply IH with (b := true).
    + now apply IH with (b := false).
Qed.

Lemma tidy_weaken (s : jsstring) (b : bool) : tidyFrom b s -> tidyFrom false s.
Proof.
  destruct s as [|c r]; simpl; [trivial|].
  destruct (isWhiteSpace c); [|trivial].
  intros (? & _ & ?); auto.
Qed.

Lemma tidy_trimStart (s : jsstring) (b : bool) :
  tidyFrom b s -> tidyFrom false (trimStart s).
Proof.
  revert b; induction s as [|c r IH]; intros b H; simpl in *; [exact I|].
  destruct (isWhiteSpace c) eqn:Hc.
  - destruct H as (_ & _ & H). now apply IH with (b := true).
  - simpl. now rewrite Hc.
Qed.

Lemma tidy_trimEnd (s : jsstring) (b : bool) :
  tidyFrom b s -> tidyFrom b (trimEnd s).
Proof.
  revert b; induction s as [|c r IH]; intros b H; simpl in *; [exact I|].
  destruct (trimEnd r) as [|d r'] eqn:Hr.
  - destruct (isWhiteSpace c) eqn:Hc; simpl; [exact I|]. now rewrite Hc.
  - simpl. destruct (isWhiteSpace c).
    + destruct H as (? & ? & H). repeat split; auto. now apply IH.
    + now apply IH.
Qed.

Lemma trimEnd_idem (s : jsstring) : trimEnd (trimEnd s) = trimEnd s.
Proof.
  induction s as [|c r IH]; simpl; [reflexivity|].
  destruct (trimEnd r) as [|d r'] eqn:Hr.
  - destruct (isWhiteSpace c) eqn:Hc; simpl; [reflexivity|]. now rewrite Hc.
  - simpl in *. now rewrite IH.
Qed.

Lemma trimStart_trimEnd (s : jsstring) :
  trimStart s = s -> trimStart (trimEnd s) = trimEnd s.
Proof.
  destruct s as [|c r]; simpl; [reflexivity|].
  destruct (isWhiteSpace c) eqn:Hc.
  - intros H. exfalso.
    assert (Hlen : (List.length (trimStart r) <= List.length r)%nat).
    { clear. induction r as [|d r IH]; simpl; [lia|].
      destruct (isWhiteSpace d); simpl; lia. }
    rewrite H in Hlen. simpl in Hlen. lia.
  - intros _. destruct (trimEnd r); simpl; now rewrite Hc.
Qed.

Lemma trimStart_idem (s : jsstring) : trimStart (trimStart s) = trimStart s.
Proof.
  induction s as [|c r IH]; simpl; [reflexivity|].
  destruct (isWhiteSpace c) eqn:Hc; [exact IH|]. simpl. now rewrite Hc.
Qed.

Lemma trim_idem (s : jsstring) : trim (trim s) = trim s.
Proof.
  unfold trim.
  rewrite (trimStart_trimEnd (trimStart s) (trimStart_idem s)).
  apply trimEnd_idem.
Qed.

Lemma newline_is_space (c : ascii) :
  isNewline c = true -> isWhiteSpace c = true /\ c <> " "%char.
Proof.
  unfold isNewline. intros H. apply Ascii.eqb_eq in H. subst c.
  split; [reflexivity|discriminate].
Qed.

Lemma tab_is_space (c : ascii) :
  isTab c = true -> isWhiteSpace c = true /\ c <> " "%char.
Proof.
  unfold isTab. intros H. apply Ascii.eqb_eq in H. subst c.
  split; [reflexivity|discriminate].
Qed.

(** After the first replace the two others change nothing. *)
Lemma cleanText_unfold (x : jsstring) :
  cleanText x = trim (replaceRuns isWhiteSpace x).
Proof.
  unfold cleanText, replaceRuns.
  pose proof (replaceRuns_tidy x false) as H.
  rewrite (tidy_replaceRuns_other isNewline _ false false newline_is_space H).
  now rewrite (tidy_replaceRuns_other isTab _ false false tab_is_space H).
Qed.

Lemma cleanText_tidy (x : jsstring) : tidyFrom false (cleanText x).
Proof.
  rewrite cleanText_unfold. unfold trim, replaceRuns.
  apply tidy_trimEnd, (tidy_trimStart _ false), replaceRuns_tidy.
Qed.

(** C9. [cleanText] is idempotent: cleaning a cleaned string gives it back. *)
Theorem cleanText_idempotent (x : jsstring) :
  cleanText (cleanText x) = cleanText x.
Proof.
  rewrite (cleanText_unfold (cleanText x)).
  unfold replaceRuns at 1.
  rewrite (tidy_replaceRuns_fix _ false (cleanText_tidy x)).
  rewrite cleanText_unfold. apply trim_idem.
Qed.

End CleanText.

(** ** chunkDocument *)

Section Chunking.

Lemma findChar_bound (c : ascii) (s : jsstring) (i : nat) :
  findChar c s = Some i -> (i < List.length s)%nat.
Proof.
  revert i; induction s as [|d r IH]; intros i; simpl; [discriminate|].
  destruct (Ascii.eqb d c).
  - intros [= <-]. lia.
  - destruct (findChar c r) as [j|]; [|discriminate].
    intros [= <-]. specialize (IH j eq_refl). lia.
Qed.

(** A found position lies at or after the clamped start, inside the text. *)
Lemma indexOf_bounds (s : jsstring) (c : ascii) (from : Z) :
  indexOf s c from = -1 \/
  clamp from (length s) <= indexOf s c from < length s.
Proof.
  unfold indexOf.
  destruct (findChar c (skipn (Z.to_nat (clamp from (length s))) s)) as [i|] eqn:Hf;
    [right|now left].
  apply findChar_bound in Hf. rewrite length_skipn in Hf.
  unfold clamp, length in *. lia.
Qed.

Lemma insertAsc_In (x y : Z) (l : list Z) : In y (insertAsc x l) -> y = x \/ In y l.
Proof.
  induction l as [|z r IH]; simpl.
  - intros [<-|[]]; auto.
  - destruct (x <=? z); simpl; intros [H|H]; auto.
    destruct (IH H); auto.
Qed.

Lemma sortAsc_In (y : Z) (l : list Z) : In y (sortAsc l) -> In y l.
Proof.
  induction l as [|z r IH]; simpl; [trivial|].
  intros H. apply insertAsc_In in H as [->|H]; auto.
Qed.

(** The window is never shorter than [chunkSize], and the search for a break
    point lengthens it by at most 100. *)
Lemma chunkEnd_bounds (text : jsstring) (chunkSize startIndex : Z) :
  startIndex + chunkSize <= chunkEnd text chunkSize startIndex
  <= startIndex + chunkSize + 100.
Proof.
  unfold chunkEnd.
  set (endIndex := startIndex + chunkSize).
  destruct (endIndex <? length text) eqn:Hlt; [|lia].
  apply Z.ltb_lt in Hlt.
  assert (Hspace :
    endIndex <=
      (if negb (indexOf text " "%char endIndex =? -1)
          && (indexOf text " "%char endIndex - endIndex <? 50)
       then indexOf text " "%char endIndex else endIndex)
    <= endIndex + 100).
  { destruct (indexOf_bounds text " "%char endIndex) as [E|B].
    - rewrite E. simpl. lia.
    - destruct (negb _ && (_ <? 50)) eqn:Hc; [|lia].
      apply andb_true_iff in Hc as [_ Hc]. apply Z.ltb_lt in Hc.
      unfold clamp in B. lia. }
  destruct (sortAsc _) as [|b0 rest] eqn:Hs; [exact Hspace|].
  destruct (b0 - endIndex <? 100) eqn:Hb; [|exact Hspace].
  apply Z.ltb_lt in Hb.
  assert (Hin : In b0 (sortAsc (filter (fun point => negb (point =? -1))
            [indexOf text "."%char endIndex; indexOf text "?"%char endIndex;
             indexOf text "!"%char endIndex]))) by (rewrite Hs; now left).
  apply sortAsc_In, filter_In in Hin as [Hin Hne].
  apply negb_true_iff, Z.eqb_neq in Hne.
  assert (clamp endIndex (length text) <= b0).
  { simpl in Hin.
    destruct Hin as [<-|[<-|[<-|[]]]];
      (match goal with
       | |- _ <= indexOf ?t ?c ?e =>
           destruct (indexOf_bounds t c e) as [E|B]; [congruence|lia]
       end). }
  unfold clamp in *. lia.
Qed.

(** Each turn of the loop moves the start forward by [chunkSize - overlap]
    at least. *)
Lemma chunk_progress (text : jsstring) (chunkSize overlap startIndex : Z) :
  startIndex + (chunkSize - overlap)
  <= chunkEnd text chunkSize startIndex - overlap.
Proof. pose proof (chunkEnd_bounds text chunkSize startIndex). lia. Qed.

(** The emitted chunks are the trimmed windows. *)
Lemma chunkLoop_windows (fuel : nat) (text : jsstring) (chunkSize overlap startIndex : Z) :
  chunkLoop fuel text chunkSize overlap startIndex
  = option_map (map (emitted text))
               (chunkWindows fuel text chunkSize overlap startIndex).
Proof.
  revert startIndex; induction fuel as [|fuel IH]; intros startIndex; simpl;
    [reflexivity|].
  destruct (startIndex <? length text); [|reflexivity].
  rewrite IH.
  now destruct (chunkWindows fuel text chunkSize overlap _).
Qed.

(** With [overlap < chunkSize] the loop is left before a fuel of
    [length - startIndex + 1] is used up. *)
Lemma chunkWindows_terminates (text : jsstring) (chunkSize overlap : Z) :
  overlap < chunkSize ->
  forall (fuel : nat) (startIndex : Z),
    (Z.to_nat (length text - startIndex) < fuel)%nat ->
    exists windows,
      chunkWindows fuel text chunkSize overlap startIndex = Some windows.
Proof.
  intros Hov; induction fuel as [|fuel IH]; intros startIndex Hfuel; [lia|].
  simpl. destruct (startIndex <? length text) eqn:Hlt; [|now exists []].
  apply Z.ltb_lt in Hlt.
  pose proof (chunk_progress text chunkSize overlap startIndex) as Hp.
  destruct (IH (chunkEnd text chunkSize startIndex - overlap)) as [ws Hws]; [lia|].
  rewrite Hws. eauto.
Qed.

(** More fuel never changes an answer. *)
Lemma chunkWindows_fuel_mono (text : jsstring) (chunkSize overlap : Z)
  (fuel fuel' : nat) (startIndex : Z) (windows : list (Z * Z)) :
  (fuel <= fuel')%nat ->
  chunkWindows fuel text chunkSize overlap startIndex = Some windows ->
  chunkWindows fuel' text chunkSize overlap startIndex = Some windows.
Proof.
  revert fuel' startIndex windows; induction fuel as [|fuel IH];
    intros fuel' startIndex windows Hle; simpl; [discriminate|].
  destruct fuel' as [|fuel']; [lia|]. simpl.
  destruct (startIndex <? length text); [|trivial].
  destruct (chunkWindows fuel text chunkSize overlap _) as [rest|] eqn:Hr;
    [|discriminate].
  intros [= <-]. now rewrite (IH fuel' _ rest ltac:(lia) Hr).
Qed.

(** Every window the loop cuts from a start at or after 0 begins inside the
    text and is between [chunkSize] and [chunkSize + 100] long. *)
Lemma chunkWindows_shape (text : jsstring) (chunkSize overlap : Z) :
  overlap < chunkSize ->
  forall (fuel : nat) (startIndex : Z) (windows : list (Z * Z)),
    0 <= startIndex ->
    chunkWindows fuel text chunkSize overlap startIndex = Some windows ->
    Forall (fun w => 0 <= fst w < length text
                     /\ fst w + chunkSize <= snd w <= fst w + chunkSize + 100)
           windows.
Proof.
  intros Hov; induction fuel as [|fuel IH]; intros startIndex windows H0; simpl;
    [discriminate|].
  destruct (startIndex <? length text) eqn:Hlt.
  - apply Z.ltb_lt in Hlt.
    destruct (chunkWindows fuel text chunkSize overlap _) as [rest|] eqn:Hr;
      [|discriminate].
    intros [= <-].
    pose proof (chunkEnd_bounds text chunkSize startIndex) as Hb.
    constructor; [simpl; lia|].
    apply (IH _ rest) in Hr; [exact Hr|lia].
  - intros [= <-]. constructor.
Qed.

(** Without [overlap < chunkSize] the loop need not be left: with a window of
    2 and an overlap of 2 the start stays at 0, whatever the fuel. *)
Lemma chunkDocument_equal_overlap_diverges (fuel : nat) :
  chunkDocument fuel (str "aaa") 2 2 = None.
Proof.
  unfold chunkDocument. change (length (str "aaa") <=? 2) with false. cbv iota.
  induction fuel as [|fuel IH]; [reflexivity|].
  cbn [chunkLoop]. change (0 <? length (str "aaa")) with true. cbv iota zeta.
  change (chunkEnd (str "aaa") 2 0 - 2) with 0. now rewrite IH.
Qed.

End Chunking.

Section ChunkingClaims.

Lemma trimStart_length (s : jsstring) : length (trimStart s) <= length s.
Proof.
  unfold length. induction s as [|c r IH]; simpl; [lia|].
  destruct (isWhiteSpace c); simpl; lia.
Qed.

Lemma trimEnd_length (s : jsstring) : length (trimEnd s) <= length s.
Proof.
  unfold length. induction s as [|c r IH]; simpl; [lia|].
  destruct (trimEnd r); [destruct (isWhiteSpace c)|]; simpl in *; lia.
Qed.

Lemma trim_length (s : jsstring) : length (trim s) <= length s.
Proof.
  unfold trim.
  pose proof (trimEnd_length (trimStart s)). pose proof (trimStart_length s). lia.
Qed.

Lemma substring_length (s : jsstring) (a b : Z) :
  a <= b -> length (substring s a b) <= b - a.
Proof.
  intros Hab. unfold substring, length, clamp.
  rewrite length_firstn. lia.
Qed.

(** For ordered, non-negative ends [substring] is a [firstn] of a [skipn]. *)
Lemma substring_ordered (s : jsstring) (a b : Z) :
  0 <= a <= b ->
  substring s a b
  = firstn (Z.to_nat (Z.min b (length s)) - Z.to_nat (Z.min a (length s)))
           (skipn (Z.to_nat (Z.min a (length s))) s).
Proof.
  intros Hab. unfold substring, clamp. f_equal; [|f_equal]; unfold length; lia.
Qed.

(** From a start that trails the end of the previous window by at most the
    overlap, the windows read back without their overlaps are the rest of
    the text. *)
Lemma stitch_rest (text : jsstring) (chunkSize overlap : Z) :
  0 <= overlap < chunkSize ->
  forall (fuel : nat) (startIndex prevEnd : Z) (windows : list (Z * Z)),
    0 <= startIndex <= prevEnd ->
    prevEnd <= startIndex + overlap ->
    chunkWindows fuel text chunkSize overlap startIndex = Some windows ->
    stitch text prevEnd windows = skipn (Z.to_nat prevEnd) text.
Proof.
  intros Hov; induction fuel as [|fuel IH];
    intros startIndex prevEnd windows Hs Hp; simpl; [discriminate|].
  destruct (startIndex <? length text) eqn:Hlt.
  - apply Z.ltb_lt in Hlt.
    destruct (chunkWindows fuel text chunkSize overlap _) as [rest|] eqn:Hr;
      [|discriminate].
    intros [= <-]. simpl.
    pose proof (chunkEnd_bounds text chunkSize startIndex) as Hb.
    set (e := chunkEnd text chunkSize startIndex) in *.
    replace (Z.max startIndex prevEnd) with prevEnd by lia.
    replace (Z.max e prevEnd) with e by lia.
    rewrite (IH (e - overlap) e rest) by (lia || exact Hr).
    rewrite substring_ordered by lia.
    unfold length in *.
    destruct (Z_le_gt_dec (Z.of_nat (List.length text)) prevEnd) as [Hge|Hin].
    + rewrite !skipn_all2 by lia. now rewrite firstn_nil.
    + replace (Z.to_nat (Z.min prevEnd (Z.of_nat (List.length text))))
        with (Z.to_nat prevEnd) by lia.
      destruct (Z_le_gt_dec (Z.of_nat (List.length text)) e) as [Hge|Hin'].
      * rewrite (skipn_all2 text (n := Z.to_nat e)) by lia.
        rewrite firstn_all2, app_nil_r; [reflexivity|].
        rewrite length_skipn. lia.
      * replace (Z.to_nat (Z.min e (Z.of_nat (List.length text)))) with (Z.to_nat e) by lia.
        replace (skipn (Z.to_nat e) text)
          with (skipn (Z.to_nat e - Z.to_nat prevEnd) (skipn (Z.to_nat prevEnd) text))
          by (rewrite skipn_skipn; f_equal; lia).
        apply firstn_skipn.
  - apply Z.ltb_ge in Hlt. intros [= <-]. simpl.
    rewrite skipn_all2; [reflexivity|]. unfold length in Hlt. lia.
Qed.

(** C7. [chunkDocument] terminates whenever [overlap < chunkSize]: every turn
    of the loop moves the window start forward by a strictly positive amount,
    so a fuel above the length of the text always yields the chunk list. *)
Theorem chunkDocument_terminates (text : jsstring) (chunkSize overlap : Z) :
  overlap < chunkSize ->
  (forall startIndex : Z,
      startIndex < chunkEnd text chunkSize startIndex - overlap)
  /\ (forall fuel : nat,
         (List.length text < fuel)%nat ->
         exists chunks, chunkDocument fuel text chunkSize overlap = Some chunks).
Proof.
  intros Hov. split.
  - intros startIndex.
    pose proof (chunk_progress text chunkSize overlap startIndex). lia.
  - intros fuel Hfuel. unfold chunkDocument.
    destruct (length text <=? chunkSize); [eauto|].
    rewrite chunkLoop_windows.
    destruct (chunkWindows_terminates text chunkSize overlap Hov fuel 0) as [ws ->].
    + unfold length. lia.
    + simpl. eauto.
Qed.

Lemma chunkDocument_terminates_witness :
  3 < 10
  /\ ((forall startIndex : Z, startIndex < chunkEnd sampleText 10 startIndex - 3)
      /\ (forall fuel : nat,
             (List.length sampleText < fuel)%nat ->
             exists chunks, chunkDocument fuel sampleText 10 3 = Some chunks)).
Proof.
  split; [lia|]. apply (chunkDocument_terminates sampleText 10 3). lia.
Defined.

(** C6. For a text strictly longer than [chunkSize], every chunk that
    [chunkDocument] emits (the last one included) is at most
    [chunkSize + 100] characters long. *)
Theorem chunk_size_bound (text : jsstring) (chunkSize overlap : Z) (fuel : nat) :
  0 <= chunkSize ->
  overlap < chunkSize ->
  chunkSize < length text ->
  (List.length text < fuel)%nat ->
  exists chunks,
    chunkDocument fuel text chunkSize overlap = Some chunks
    /\ Forall (fun chunk => length chunk <= chunkSize + 100) chunks.
Proof.
  intros Hsz Hov Hlong Hfuel. unfold chunkDocument.
  destruct (length text <=? chunkSize) eqn:Hle; [apply Z.leb_le in Hle; lia|].
  rewrite chunkLoop_windows.
  destruct (chunkWindows_terminates text chunkSize overlap Hov fuel 0) as [ws Hws].
  { unfold length. lia. }
  rewrite Hws. simpl. eexists; split; [reflexivity|].
  apply chunkWindows_shape in Hws; [|assumption|lia].
  apply Forall_map. eapply Forall_impl; [|exact Hws].
  intros [s e]; simpl. intros [_ Hb]. unfold emitted; simpl.
  pose proof (trim_length (substring text s e)).
  pose proof (substring_length text s e). lia.
Qed.

Lemma chunk_size_bound_witness :
  exists chunks,
    chunkDocument 48 sampleText 10 3 = Some chunks
    /\ Forall (fun chunk => length chunk <= 10 + 100) chunks.
Proof.
  apply (chunk_size_bound sampleText 10 3 48); vm_compute; (reflexivity || congruence || lia).
Defined.

(** C4, as the code has it.  With [0 <= overlap < chunkSize], [chunkDocument]
    returns at least one chunk for every text.  A text no longer than
    [chunkSize] is returned whole; otherwise the untrimmed windows the loop
    cuts, read back ignoring their overlaps, are the text, and each emitted
    chunk is the trim of its window. *)
Theorem chunk_windows_cover (text : jsstring) (chunkSize overlap : Z) (fuel : nat) :
  0 <= overlap < chunkSize ->
  (List.length text < fuel)%nat ->
  exists chunks,
    chunkDocument fuel text chunkSize overlap = Some chunks
    /\ chunks <> []
    /\ ((length text <= chunkSize /\ chunks = [text])
        \/ (chunkSize < length text
            /\ exists windows,
                chunkWindows fuel text chunkSize overlap 0 = Some windows
                /\ chunks = map (emitted text) windows
                /\ stitch text 0 windows = text)).
Proof.
  intros Hov Hfuel. unfold chunkDocument.
  destruct (length text <=? chunkSize) eqn:Hle.
  - apply Z.leb_le in Hle. exists [text]. repeat split; [discriminate|now left].
  - apply Z.leb_gt in Hle.
    rewrite chunkLoop_windows.
    destruct (chunkWindows_terminates text chunkSize overlap (proj2 Hov) fuel 0)
      as [ws Hws].
    { unfold length. lia. }
    rewrite Hws. simpl. eexists; split; [reflexivity|]. split.
    + destruct fuel as [|fuel]; [lia|]. simpl in Hws.
      destruct (0 <? length text) eqn:H0; [|apply Z.ltb_ge in H0; lia].
      destruct (chunkWindows fuel text chunkSize overlap _); [|discriminate].
      injection Hws as <-. discriminate.
    + right. split; [exact Hle|]. exists ws. repeat split.
      apply (stitch_rest text chunkSize overlap Hov fuel 0 0 ws); (lia || exact Hws).
Qed.

Lemma chunk_windows_cover_witness :
  exists chunks,
    chunkDocument 48 sampleText 10 3 = Some chunks
    /\ chunks <> []
    /\ ((length sampleText <= 10 /\ chunks = [sampleText])
        \/ (10 < length sampleText
            /\ exists windows,
                chunkWindows 48 sampleText 10 3 0 = Some windows
                /\ chunks = map (emitted sampleText) windows
                /\ stitch sampleText 0 windows = sampleText)).
Proof.
  apply (chunk_windows_cover sampleText 10 3 48); vm_compute; (lia || intuition congruence).
Defined.

(** C4, as stated, fails on the emitted chunks: with the default size and
    overlap, the text of one space and a thousand letters gives two chunks of
    letters only; the space it begins with is in no chunk. *)
Lemma chunk_coverage_counterexample :
  chunkDocument 1002 paddedText defaultChunkSize defaultOverlap
  = Some [repeat "a"%char 999; repeat "a"%char 201]
  /\ In " "%char paddedText
  /\ Forall (fun chunk => ~ In " "%char chunk)
            [repeat "a"%char 999; repeat "a"%char 201].
Proof.
  split; [vm_compute; reflexivity|]. split; [now left|].
  repeat constructor; intros H; apply repeat_spec in H; discriminate.
Qed.

End ChunkingClaims.

(** ** RfpAnalyzer *)

Section Analyzer.
Import VectorStore RfpAnalyzer.

(** C1, as stated, fails on its second sentence: "terminated" does not
    contain "termination", so the sentence is not flagged by
    [extractRiskyClauses] and [assessRiskLevel] answers Low, not Medium. *)
Lemma risk_terminated_counterexample :
  assessRiskLevel terminatedSentence = str "Low"
  /\ assessRiskLevel terminatedSentence <> str "Medium"
  /\ extractRiskyClauses terminatedSentence = [].
Proof. vm_compute. repeat split. discriminate. Qed.

(** C1, as the code has it.  The liability sentence is flagged (with the full
    stop the extractor appends) and is High; the sentence with "terminated" is
    not flagged and is Low; Medium through "termination" is the level of a
    sentence that has that very word, which is flagged as well (again with
    a full stop appended). *)
Theorem risk_levels_fixed_sentences :
  assessRiskLevel liabilitySentence = str "High"
  /\ extractRiskyClauses liabilitySentence = [liabilitySentence ++ str "."]
  /\ assessRiskLevel (liabilitySentence ++ str ".") = str "High"
  /\ extractRiskyClauses terminatedSentence = []
  /\ assessRiskLevel terminatedSentence = str "Low"
  /\ extractRiskyClauses terminationSentence = [terminationSentence ++ str "."]
  /\ assessRiskLevel terminationSentence = str "Medium"
  /\ assessRiskLevel (terminationSentence ++ str ".") = str "Medium".
Proof. vm_compute. repeat split. Qed.

(** C8. With the fixed profile, the ISO 9001 line is met and the line asking
    for 10 years of experience is not (5 years are recorded). *)
Theorem fixed_profile_requirements (name : jsstring) (regs : list jsstring) :
  checkRequirementMet (fixedProfile name regs)
    (str "Must have ISO 9001 certification") = true
  /\ checkRequirementMet (fixedProfile name regs)
       (str "Must have 10 years experience") = false.
Proof. split; reflexivity. Qed.

(** C10. [registrations] never influences the eligibility analysis: two
    profiles that agree on every other field give the same answer of
    [checkRequirementMet] on every line, hence the same verdict and the same
    list of missing requirements (indeed the same result and the same effect
    on the store) from [analyzeEligibility]. *)
Theorem registrations_do_not_matter {chroma : ChromaClient}
  (c1 c2 : CompanyDetails) :
  companyName c1 = companyName c2 ->
  certifications c1 = certifications c2 ->
  experience c1 = experience c2 ->
  capabilities c1 = capabilities c2 ->
  (forall requirement,
      checkRequirementMet c1 requirement = checkRequirementMet c2 requirement)
  /\ (forall results,
         eligible (assessEligibility c1 results)
         = eligible (assessEligibility c2 results)
         /\ missingRequirements (assessEligibility c1 results)
            = missingRequirements (assessEligibility c2 results))
  /\ (forall rfpId s, analyzeEligibility c1 rfpId s = analyzeEligibility c2 rfpId s).
Proof.
  destruct c1 as [n1 ce1 ex1 ca1 r1], c2 as [n2 ce2 ex2 ca2 r2]; simpl.
  intros -> -> -> ->.
  assert (Hcheck : forall requirement,
             checkRequirementMet (mkCompanyDetails n2 ce2 ex2 ca2 r1) requirement
             = checkRequirementMet (mkCompanyDetails n2 ce2 ex2 ca2 r2) requirement)
    by reflexivity.
  assert (Hassess : forall results,
             assessEligibility (mkCompanyDetails n2 ce2 ex2 ca2 r1) results
             = assessEligibility (mkCompanyDetails n2 ce2 ex2 ca2 r2) results)
    by reflexivity.
  split; [exact Hcheck|]. split.
  - intros results. now rewrite Hassess.
  - intros rfpId s. unfold analyzeEligibility, bind.
    destruct (similaritySearch eligibilityQuery 10 s) as [[results|e] s'];
      [|reflexivity].
    unfold ret. now rewrite Hassess.
Qed.

Lemma registrations_do_not_matter_witness :
  (forall requirement,
      checkRequirementMet (fixedProfile (str "Acme") [str "SAM.gov Registered"]) requirement
      = checkRequirementMet (fixedProfile (str "Acme") []) requirement)
  /\ (forall results,
         eligible (assessEligibility (fixedProfile (str "Acme") [str "SAM.gov Registered"]) results)
         = eligible (assessEligibility (fixedProfile (str "Acme") []) results)
         /\ missingRequirements
              (assessEligibility (fixedProfile (str "Acme") [str "SAM.gov Registered"]) results)
            = missingRequirements (assessEligibility (fixedProfile (str "Acme") []) results))
  /\ (forall rfpId s,
         analyzeEligibility (chroma := cannedClient requirementResponse)
           (fixedProfile (str "Acme") [str "SAM.gov Registered"]) rfpId s
         = analyzeEligibility (chroma := cannedClient requirementResponse)
             (fixedProfile (str "Acme") []) rfpId s).
Proof.
  apply (registrations_do_not_matter (chroma := cannedClient requirementResponse)
           (fixedProfile (str "Acme") [str "SAM.gov Registered"])
           (fixedProfile (str "Acme") [])); reflexivity.
Defined.

(** [uniq] keeps one copy of each element. *)
Lemma uniqFrom_spec (seen l : list jsstring) :
  NoDup (uniqFrom seen l)
  /\ (forall x, In x (uniqFrom seen l) <-> In x l /\ ~ In x seen).
Proof.
  revert seen; induction l as [|y r IH]; intros seen; simpl.
  - split; [constructor|]. intros x; tauto.
  - destruct (existsb (fun z => if list_eq_dec ascii_dec y z then true else false) seen)
      eqn:Hex.
    + apply existsb_exists in Hex as (z & Hz & Heq).
      destruct (list_eq_dec ascii_dec y z) as [->|]; [|discriminate].
      destruct (IH seen) as [Hnd Hin]. split; [exact Hnd|].
      intros x. rewrite Hin. split; [tauto|].
      intros [[->|Hx] Hs]; tauto.
    + assert (Hy : ~ In y seen).
      { intros Hy. apply not_true_iff_false in Hex. apply Hex.
        apply existsb_exists. exists y. split; [exact Hy|].
        now destruct (list_eq_dec ascii_dec y y). }
      destruct (IH (y :: seen)) as [Hnd Hin]. split.
      * constructor; [|exact Hnd]. rewrite Hin. simpl. tauto.
      * intros x. simpl. rewrite Hin. simpl.
        destruct (list_eq_dec ascii_dec y x) as [->|Hne]; tauto.
Qed.

(** The buckets [extractSubmissionRequirements] returns are duplicate-free
    and have the elements of the collected ones. *)
Lemma returned_buckets_deduplicated (results : list SearchResult) :
  NoDup (formatRequirements (summarizeSubmission results))
  /\ NoDup (documentRequirements (summarizeSubmission results))
  /\ NoDup (deadlines (summarizeSubmission results)).
Proof.
  unfold summarizeSubmission.
  destruct (collectBuckets results) as [[f d] dl]; simpl.
  repeat split; apply uniqFrom_spec.
Qed.

(** Every checklist ends with the Final Verification items. *)
Lemma checklist_ends_with_final_verification (formatReqs docReqs dls : list jsstring) :
  exists body,
    generateSubmissionChecklist formatReqs docReqs dls = body ++ finalVerification.
Proof.
  unfold generateSubmissionChecklist. eexists.
  repeat rewrite app_assoc. reflexivity.
Qed.

(** The checklist is rendered from the collected buckets as they are, not
    from the deduplicated ones that are returned beside it. *)
Lemma checklist_from_collected_buckets (results : list SearchResult) :
  submissionChecklist (summarizeSubmission results)
  = generateSubmissionChecklist (fst (fst (collectBuckets results)))
      (snd (fst (collectBuckets results))) (snd (collectBuckets results)).
Proof.
  unfold summarizeSubmission.
  now destruct (collectBuckets results) as [[f d] dl].
Qed.

(** C5, on the code: two retrieved chunks share the line "Submit the signed
    form".  The returned [documentRequirements] has it once, while the
    checklist, rendered before the deduplication, lists it twice, and so is
    not the checklist of the returned buckets.  It still ends with the Final
    Verification items. *)
Theorem checklist_repeats_shared_line :
  exists result s,
    extractSubmissionRequirements (chroma := cannedClient repeatedLineResponse)
      (str "d") (fresh, []) = (Returned result, s)
    /\ documentRequirements result = [submitLine]
    /\ submissionChecklist result
       = generateSubmissionChecklist [] [submitLine; submitLine] []
    /\ submissionChecklist result
       <> generateSubmissionChecklist (formatRequirements result)
            (documentRequirements result) (deadlines result).
Proof.
  eexists; eexists. split; [vm_compute; reflexivity|].
  vm_compute. repeat split. discriminate.
Qed.

End Analyzer.

(** ** VectorStore *)

Section StoreClaims.
Import VectorStore.
Context {chroma : ChromaClient}.

(** [initialize] leaves the store with a handle and the flag set, or throws
    what the client threw. *)
Lemma initialize_outcome (name : jsstring) (st : Store) (w : World) :
  isInitialized st = false ->
  (exists c w',
      initialize name (st, w) = (Returned tt, (mkStore (Some c) true, w')))
  \/ (exists e w',
         initialize name (st, w) = (Threw (ClientFailure e), (st, w'))).
Proof.
  intros Hst. unfold initialize, bind, getStore. rewrite Hst.
  destruct (getCollection name w) as [[e|c] w'] eqn:Hg.
  - destruct (createCollection name w') as [[e'|c] w''] eqn:Hc; eauto.
  - eauto.
Qed.

(** The guards, run on a store that is not initialized: [initialize] first,
    then the test of the handle. *)
Lemma ensureCollection_uninitialized (st : Store) (w : World) :
  isInitialized st = false ->
  ensureCollection (st, w)
  = match initialize defaultCollectionName (st, w) with
    | (Returned _, (st', w')) =>
        match collection st' with
        | Some c => (Returned c, (st', w'))
        | None => (Threw NotInitialized, (st', w'))
        end
    | (Threw e, s') => (Threw e, s')
    end.
Proof.
  intros Hst. unfold ensureCollection, bind, getStore. simpl. rewrite Hst.
  destruct (initialize defaultCollectionName (st, w)) as [[[]|e] [st' w']];
    simpl; [|reflexivity].
  destruct (collection st'); reflexivity.
Qed.

(** On a store that is initialized the guards only test the handle. *)
Lemma ensureCollection_initialized (st : Store) (w : World) :
  isInitialized st = true ->
  ensureCollection (st, w)
  = match collection st with
    | Some c => (Returned c, (st, w))
    | None => (Threw NotInitialized, (st, w))
    end.
Proof.
  intros Hst. unfold ensureCollection, bind, getStore. simpl. rewrite Hst.
  simpl. destruct (collection st); reflexivity.
Qed.

(** The two fields stay consistent, and on a consistent store the guards
    never throw [NotInitialized]. *)
Lemma ensureCollection_consistent (st : Store) (w : World) :
  consistent st ->
  fst (ensureCollection (st, w)) <> Threw NotInitialized
  /\ consistent (fst (snd (ensureCollection (st, w)))).
Proof.
  intros Hc. destruct (isInitialized st) eqn:Hst.
  - rewrite (ensureCollection_initialized st w Hst).
    destruct (collection st) as [c|] eqn:Hcol; simpl.
    + split; [discriminate|exact Hc].
    + now destruct (Hc Hst).
  - rewrite (ensureCollection_uninitialized st w Hst).
    destruct (initialize_outcome defaultCollectionName st w Hst)
      as [(c & w' & ->)|(e & w' & ->)]; simpl.
    + split; [discriminate|]. intros _. discriminate.
    + split; [discriminate|exact Hc].
Qed.

Lemma call_never_NotInitialized {A : Type}
  (f : World -> (ClientErr + A) * World) (s : Store * World) :
  fst (call f s) <> Threw NotInitialized.
Proof.
  destruct s as [st w]. unfold call.
  destruct (f w) as [[e|a] w']; discriminate.
Qed.

(** C2, as the code has it.  Called on a store that was never initialized,
    [addDocuments] and [getCollectionCount] run [initialize] themselves with
    the default collection name: when that throws, they throw the same
    (client) error; when it returns, they go on with the collection it
    attached.  Neither ends in [NotInitialized]. *)
Theorem uninitialized_store_initializes_itself
  (docs : list Document) (st : Store) (w : World) :
  isInitialized st = false ->
  fst (addDocuments docs (st, w)) <> Threw NotInitialized
  /\ fst (getCollectionCount (st, w)) <> Threw NotInitialized
  /\ match initialize defaultCollectionName (st, w) with
     | (Threw e, s') =>
         addDocuments docs (st, w) = (Threw e, s')
         /\ getCollectionCount (st, w) = (Threw e, s')
     | (Returned _, s') =>
         exists c,
           collection (fst s') = Some c
           /\ isInitialized (fst s') = true
           /\ addDocuments docs (st, w)
              = call (collectionAdd c (map doc_id docs) (map doc_content docs)
                        (map (fun d => match doc_metadata d with
                                       | Some m => m
                                       | None => []
                                       end) docs)) s'
           /\ getCollectionCount (st, w) = call (collectionCount c) s'
     end.
Proof.
  intros Hst.
  unfold addDocuments, getCollectionCount, bind.
  rewrite (ensureCollection_uninitialized st w Hst).
  destruct (initialize_outcome defaultCollectionName st w Hst)
    as [(c & w' & ->)|(e & w' & ->)]; cbv beta iota; cbn [collection].
  - split; [apply call_never_NotInitialized|].
    split; [apply call_never_NotInitialized|].
    exists c. repeat split.
  - repeat split; discriminate.
Qed.

End StoreClaims.

Section StoreExamples.
Import VectorStore.

Lemma uninitialized_store_initializes_itself_witness :
  fst (addDocuments (chroma := plainClient) [sampleDocument] (fresh, []))
  <> Threw NotInitialized
  /\ fst (getCollectionCount (chroma := plainClient) (fresh, []))
     <> Threw NotInitialized
  /\ match initialize (chroma := plainClient) defaultCollectionName (fresh, []) with
     | (Threw e, s') =>
         addDocuments (chroma := plainClient) [sampleDocument] (fresh, [])
         = (Threw e, s')
         /\ getCollectionCount (chroma := plainClient) (fresh, []) = (Threw e, s')
     | (Returned _, s') =>
         exists c,
           collection (fst s') = Some c
           /\ isInitialized (fst s') = true
           /\ addDocuments (chroma := plainClient) [sampleDocument] (fresh, [])
              = call (collectionAdd c (map doc_id [sampleDocument])
                        (map doc_content [sampleDocument])
                        (map (fun d => match doc_metadata d with
                                       | Some m => m
                                       | None => []
                                       end) [sampleDocument])) s'
           /\ getCollectionCount (chroma := plainClient) (fresh, [])
              = call (collectionCount c) s'
     end.
Proof.
  apply (uninitialized_store_initializes_itself (chroma := plainClient)
           [sampleDocument] fresh []).
  reflexivity.
Defined.

(** C2, as stated, fails: on a store that was never initialized, over an
    empty database, [addDocuments] returns after creating the collection and
    adding the document, and [getCollectionCount] returns 0. *)
Lemma addDocuments_before_initialize_counterexample :
  addDocuments (chroma := plainClient) [sampleDocument] (fresh, [])
  = (Returned tt,
     (mkStore (chroma := plainClient) (Some defaultCollectionName) true,
      [(defaultCollectionName, [(str "a", str "X")])]))
  /\ getCollectionCount (chroma := plainClient) (fresh, [])
     = (Returned 0,
        (mkStore (chroma := plainClient) (Some defaultCollectionName) true,
         [(defaultCollectionName, [])])).
Proof. split; vm_compute; reflexivity. Qed.

End StoreExamples.

(** ** similaritySearch *)

Section SearchClaims.
Import VectorStore.

Lemma mapIndexed_ids (results : QueryResponse) (l : list jsstring) (k : nat) :
  map id (mapIndexed (toSearchResult results) k l) = l.
Proof.
  revert k; induction l as [|x r IH]; intros k; simpl; [reflexivity|].
  now rewrite IH.
Qed.

Lemma mapIndexed_nth {A B} (f : A -> nat -> B) (l : list A) (k i : nat) (b : B) :
  nth_error (mapIndexed f k l) i = Some b ->
  exists x, nth_error l i = Some x /\ b = f x (k + i)%nat.
Proof.
  revert k i; induction l as [|x r IH]; intros k i; simpl.
  - destruct i; discriminate.
  - destruct i as [|i]; simpl.
    + intros [= <-]. exists x. now rewrite Nat.add_0_r.
    + intros H. apply IH in H as (y & Hy & ->).
      exists y. split; [exact Hy|]. f_equal. lia.
Qed.

Lemma mapIndexed_scores (results : QueryResponse) (l : list jsstring) (k : nat) :
  map score (mapIndexed (toSearchResult results) k l)
  = map (fun i => (1 - orZero (reportedDistance results i))%Q)
        (seq k (List.length l)).
Proof.
  revert k; induction l as [|x r IH]; intros k; simpl; [reflexivity|].
  now rewrite IH.
Qed.

(** The results carry the ids of the answer, in the order of the answer. *)
Lemma mapResults_ids (results : QueryResponse) :
  map id (mapResults results) = hd [] (ids results).
Proof.
  unfold mapResults. destruct (ids results) as [|ids0 rest]; [reflexivity|].
  destruct ids0 as [|i0 r]; [reflexivity|]. apply mapIndexed_ids.
Qed.

Lemma mapResults_nth (results : QueryResponse) (index : nat) (r : SearchResult) :
  nth_error (mapResults results) index = Some r ->
  exists i, r = toSearchResult results i index.
Proof.
  unfold mapResults. destruct (ids results) as [|ids0 rest].
  - destruct index; discriminate.
  - destruct ids0 as [|i0 l].
    + destruct index; discriminate.
    + intros H. apply mapIndexed_nth in H as (x & _ & ->). now exists x.
Qed.

Lemma mapResults_scores (results : QueryResponse) :
  map score (mapResults results)
  = map (fun i => (1 - orZero (reportedDistance results i))%Q)
        (seq 0 (List.length (hd [] (ids results)))).
Proof.
  unfold mapResults. destruct (ids results) as [|ids0 rest]; [reflexivity|].
  destruct ids0 as [|i0 l]; [reflexivity|]. apply mapIndexed_scores.
Qed.

Lemma seq_nth_error_map {A B} (g : option A -> B) (qs pre : list A) :
  map (fun i => g (nth_error (pre ++ qs) i)) (seq (List.length pre) (List.length qs))
  = map (fun q => g (Some q)) qs.
Proof.
  revert pre; induction qs as [|q r IH]; intros pre; simpl; [reflexivity|].
  rewrite nth_error_app2, Nat.sub_diag by lia. simpl. f_equal.
  specialize (IH (pre ++ [q])).
  rewrite <- app_assoc, length_app, Nat.add_comm in IH. exact IH.
Qed.

(** With a distance listed for every id, the scores are the distances
    turned round, one by one. *)
Lemma listed_scores (results : QueryResponse) (qs : list Q)
  (rest : list (list (option Q))) :
  distances results = Some (map Some qs :: rest) ->
  List.length qs = List.length (hd [] (ids results)) ->
  map score (mapResults results) = map (fun q => (1 - orZero (Some q))%Q) qs.
Proof.
  intros Hd Hlen. rewrite mapResults_scores, <- Hlen.
  rewrite <- (seq_nth_error_map (fun d => (1 - orZero d)%Q) qs []).
  apply map_ext. intros i. unfold reportedDistance. rewrite Hd. simpl.
  rewrite nth_error_map. now destruct (nth_error qs i).
Qed.

Lemma orZero_value (q : Q) : (orZero (Some q) == q)%Q.
Proof.
  unfold orZero. destruct (Qeq_bool q 0) eqn:H; [|reflexivity].
  apply Qeq_bool_iff in H. now rewrite H.
Qed.

Lemma descending_scores (qs : list Q) :
  ascending qs -> descending (map (fun q => (1 - orZero (Some q))%Q) qs).
Proof.
  induction qs as [|a [|b r] IH]; cbn [map ascending descending];
    try exact (fun _ => I).
  intros [Hab H]. split; [|exact (IH H)].
  pose proof (orZero_value a). pose proof (orZero_value b). lra.
Qed.

(** C3, as the code has it.  A returned result list comes from one answer of
    the database: it has the ids of the answer in the order of the answer
    (the code does not sort).  The score of a result is 1 minus the distance
    listed for it; when the answer has no [distances] at all the distance is
    taken as 1 and the score is 1 - 1; when the list is there and the entry
    is missing, null or zero the distance is taken as 0 and the score is
    1 - 0.  When a distance is listed for every id, in ascending order, the
    scores are in descending order. *)
Theorem similaritySearch_scores {chroma : ChromaClient}
  (query : jsstring) (limit : Z) (s s' : Store * World) (rs : list SearchResult) :
  similaritySearch query limit s = (Returned rs, s') ->
  exists c w w' response,
    collectionQuery c query limit w = (inr response, w')
    /\ map id rs = hd [] (ids response)
    /\ (forall index r,
          nth_error rs index = Some r ->
          (distances response = None \/ distances response = Some [] ->
           score r = (1 - 1)%Q)
          /\ (forall d0 rest,
                 distances response = Some (d0 :: rest) ->
                 (forall d, nth_error d0 index = Some (Some d) ->
                            ~ (d == 0)%Q -> score r = (1 - d)%Q)
                 /\ (forall d, nth_error d0 index = Some (Some d) ->
                               (d == 0)%Q -> score r = (1 - 0)%Q)
                 /\ (nth_error d0 index = Some None \/ nth_error d0 index = None ->
                     score r = (1 - 0)%Q)))
    /\ (forall qs rest,
          distances response = Some (map Some qs :: rest) ->
          List.length qs = List.length (hd [] (ids response)) ->
          ascending qs ->
          descending (map score rs)).
Proof.
  unfold similaritySearch, bind.
  destruct (ensureCollection s) as [[c|e] [st1 w1]]; [|discriminate].
  unfold call.
  destruct (collectionQuery c query limit w1) as [[e|response] w2] eqn:Hq;
    [discriminate|].
  unfold ret. intros [= <- <-].
  exists c, w1, w2, response.
  split; [exact Hq|]. split; [apply mapResults_ids|]. split.
  - intros index r Hr. apply mapResults_nth in Hr as (i & ->).
    unfold toSearchResult, reportedDistance; cbn [score]. split.
    + intros [-> | ->]; reflexivity.
    + intros d0 rest ->. repeat split.
      * intros d -> Hd. unfold orZero.
        destruct (Qeq_bool d 0) eqn:E; [|reflexivity].
        now apply Qeq_bool_iff in E.
      * intros d -> Hd. unfold orZero.
        destruct (Qeq_bool d 0) eqn:E; [reflexivity|].
        apply Qeq_bool_neq in E. contradiction.
      * intros [-> | ->]; reflexivity.
  - intros qs rest Hd Hlen Hasc.
    rewrite (listed_scores response qs rest Hd Hlen).
    now apply descending_scores.
Qed.

End SearchClaims.

Section SearchExamples.
Import VectorStore.

Lemma similaritySearch_scores_witness :
  exists c w w' response,
    collectionQuery (ChromaClient := cannedClient sortedResponse) c (str "X") 5 w
    = (inr response, w')
    /\ map id (mapResults sortedResponse) = hd [] (ids response)
    /\ (forall index r,
          nth_error (mapResults sortedResponse) index = Some r ->
          (distances response = None \/ distances response = Some [] ->
           score r = (1 - 1)%Q)
          /\ (forall d0 rest,
                 distances response = Some (d0 :: rest) ->
                 (forall d, nth_error d0 index = Some (Some d) ->
                            ~ (d == 0)%Q -> score r = (1 - d)%Q)
                 /\ (forall d, nth_error d0 index = Some (Some d) ->
                               (d == 0)%Q -> score r = (1 - 0)%Q)
                 /\ (nth_error d0 index = Some None \/ nth_error d0 index = None ->
                     score r = (1 - 0)%Q)))
    /\ (forall qs rest,
          distances response = Some (map Some qs :: rest) ->
          List.length qs = List.length (hd [] (ids response)) ->
          ascending qs ->
          descending (map score (mapResults sortedResponse))).
Proof.
  apply (similaritySearch_scores (chroma := cannedClient sortedResponse)
           (str "X") 5 (fresh, [])
           (mkStore (chroma := cannedClient sortedResponse)
              (Some defaultCollectionName) true,
            [(defaultCollectionName, [])])
           (mapResults sortedResponse)).
  vm_compute. reflexivity.
Defined.

(** C3, as stated, fails.  When the answer carries no distances, the distance
    of a result is taken as 1 and its score is 0, not 1; and an answer that is
    not in ascending order of distance is handed on in its own order, here
    with scores 1/2 then 3/4. *)
Lemma similaritySearch_scores_counterexample :
  (exists r s',
      similaritySearch (chroma := plainClient) (str "X") 5 (fresh, [])
      = (Returned [r], s')
      /\ (score r == 0)%Q /\ ~ (score r == 1)%Q)
  /\ (exists r1 r2 s',
         similaritySearch (chroma := cannedClient unsortedResponse)
           (str "X") 5 (fresh, [])
         = (Returned [r1; r2], s')
         /\ (score r1 == 1 # 2)%Q /\ (score r2 == 3 # 4)%Q
         /\ ~ descending [score r1; score r2]).
Proof.
  split.
  - eexists; eexists. split; [vm_compute; reflexivity|].
    split; [reflexivity|]. intros H. vm_compute in H. discriminate.
  - eexists; eexists; eexists. split; [vm_compute; reflexivity|].
    split; [reflexivity|]. split; [reflexivity|].
    intros [H _]. vm_compute in H. now apply H.
Qed.

End SearchExamples.

(* ================================================================== *)
(** * Further properties of the code *)
(* ================================================================== *)

(** ** cleanText: what comes out, and what is left alone *)

Section CleanTextShape.

Lemma tidy_spaces (s : jsstring) (b : bool) :
  tidyFrom b s ->
  Forall (fun c => isWhiteSpace c = true -> c = " "%char) s
  /\ includes s (str "  ") = false
  /\ (b = true -> startsWith s (str " ") = false).
Proof.
  revert b; induction s as [|c r IH]; intros b H.
  - split; [constructor|]. split; reflexivity.
  - simpl in H. destruct (isWhiteSpace c) eqn:Hc.
    + destruct H as (-> & -> & H). destruct (IH true H) as (Hf & Hi & Hs).
      split; [constructor; auto|]. split; [|discriminate].
      cbn [includes]. rewrite Hi, orb_false_r.
      specialize (Hs eq_refl). destruct r as [|d r']; [reflexivity|].
      cbn in Hs |- *. now rewrite Hs.
    + destruct (IH false H) as (Hf & Hi & _).
      assert (Hne : Ascii.eqb c " "%char = false).
      { apply Ascii.eqb_neq. intros ->. discriminate. }
      split; [constructor; [congruence|exact Hf]|]. split.
      * cbn [includes]. rewrite Hi, orb_false_r.
        cbn [startsWith str list_ascii_of_string]. now rewrite Hne.
      * intros _. cbn [startsWith str list_ascii_of_string]. now rewrite Hne.
Qed.

Lemma spaces_tidy (s : jsstring) (b : bool) :
  Forall (fun c => isWhiteSpace c = true -> c = " "%char) s ->
  includes s (str "  ") = false ->
  (b = true -> startsWith s (str " ") = false) ->
  tidyFrom b s.
Proof.
  revert b; induction s as [|c r IH]; intros b Hf Hi Hs; [exact I|].
  inversion Hf as [|? ? Hc Hr]; subst.
  cbn [includes] in Hi. apply orb_false_iff in Hi as [Hh Hi].
  simpl. destruct (isWhiteSpace c) eqn:Hw.
  - specialize (Hc eq_refl). subst c. repeat split.
    + destruct b; [|reflexivity]. specialize (Hs eq_refl).
      destruct r; cbn in Hs; discriminate.
    + apply IH; auto.
  - apply IH; auto. discriminate.
Qed.

Lemma trimStart_fix (s : jsstring) : trimStart s = s -> trimStart s = s /\
  match s with c :: _ => isWhiteSpace c = false | [] => True end.
Proof.
  intros H. split; [exact H|]. destruct s as [|c r]; [exact I|].
  simpl in H. destruct (isWhiteSpace c) eqn:Hc; [|reflexivity].
  pose proof (trimStart_length r) as Hl. rewrite H in Hl.
  unfold length in Hl. simpl in Hl. lia.
Qed.

Lemma trim_fix (s : jsstring) : trim s = s -> trimStart s = s /\ trimEnd s = s.
Proof.
  unfold trim. intros H.
  assert (Hs : trimStart s = s).
  { destruct s as [|c r]; [reflexivity|]. simpl in *.
    destruct (isWhiteSpace c); [|reflexivity].
    pose proof (trimEnd_length (trimStart r)) as H1.
    pose proof (trimStart_length r) as H2.
    rewrite H in H1. unfold length in *. simpl in *. lia. }
  split; [exact Hs|]. now rewrite Hs in H.
Qed.

(** X1. What [cleanText] returns is in normal form: its only white space is
    the space character, it has no two spaces in a row, and no white space at
    either end. *)
Theorem cleanText_normal_form (x : jsstring) :
  Forall (fun c => isWhiteSpace c = true -> c = " "%char) (cleanText x)
  /\ includes (cleanText x) (str "  ") = false
  /\ trim (cleanText x) = cleanText x.
Proof.
  destruct (tidy_spaces _ false (cleanText_tidy x)) as (Hf & Hi & _).
  repeat split; auto.
  rewrite cleanText_unfold. apply trim_idem.
Qed.

(** X2. A text that is in normal form already is returned unchanged. *)
Theorem cleanText_fixes_normal_form (x : jsstring) :
  Forall (fun c => isWhiteSpace c = true -> c = " "%char) x ->
  includes x (str "  ") = false ->
  trim x = x ->
  cleanText x = x.
Proof.
  intros Hf Hi Ht.
  assert (Htidy : tidyFrom false x) by (apply spaces_tidy; auto; discriminate).
  rewrite cleanText_unfold. unfold replaceRuns.
  now rewrite (tidy_replaceRuns_fix x false Htidy).
Qed.

Lemma cleanText_fixes_normal_form_witness :
  cleanText (str "Hello world. Bye") = str "Hello world. Bye".
Proof.
  apply (cleanText_fixes_normal_form (str "Hello world. Bye")).
  - repeat constructor; intros H; vm_compute in H; discriminate.
  - reflexivity.
  - reflexivity.
Defined.

Lemma filter_replaceRuns (s : jsstring) (b : bool) :
  filter (fun c => negb (isWhiteSpace c)) (replaceRunsFrom isWhiteSpace b s)
  = filter (fun c => negb (isWhiteSpace c)) s.
Proof.
  revert b; induction s as [|c r IH]; intros b; simpl; [reflexivity|].
  destruct (isWhiteSpace c) eqn:Hc; simpl.
  - destruct b; simpl; apply IH.
  - rewrite Hc. simpl. now rewrite IH.
Qed.

Lemma filter_trimStart (s : jsstring) :
  filter (fun c => negb (isWhiteSpace c)) (trimStart s)
  = filter (fun c => negb (isWhiteSpace c)) s.
Proof.
  induction s as [|c r IH]; simpl; [reflexivity|].
  destruct (isWhiteSpace c) eqn:Hc; simpl; [exact IH|]. now rewrite Hc.
Qed.

Lemma filter_trimEnd (s : jsstring) :
  filter (fun c => negb (isWhiteSpace c)) (trimEnd s)
  = filter (fun c => negb (isWhiteSpace c)) s.
Proof.
  induction s as [|c r IH]; simpl; [reflexivity|].
  destruct (trimEnd r) as [|d r'] eqn:Hr.
  - simpl in IH. rewrite <- IH.
    destruct (isWhiteSpace c) eqn:Hc; simpl; now rewrite ?Hc.
  - rewrite <- IH. reflexivity.
Qed.

(** X3. [cleanText] only touches white space: the other characters of the
    text come out unchanged and in the same order. *)
Theorem cleanText_keeps_other_characters (x : jsstring) :
  filter (fun c => negb (isWhiteSpace c)) (cleanText x)
  = filter (fun c => negb (isWhiteSpace c)) x.
Proof.
  rewrite cleanText_unfold. unfold trim, replaceRuns.
  now rewrite filter_trimEnd, filter_trimStart, filter_replaceRuns.
Qed.

End CleanTextShape.

(** ** chunkDocument: how the windows follow each other *)

Section ChunkWindows.

Lemma chunkWindows_count (text : jsstring) (chunkSize overlap : Z) :
  overlap < chunkSize ->
  forall (fuel : nat) (startIndex : Z) (windows : list (Z * Z)),
    chunkWindows fuel text chunkSize overlap startIndex = Some windows ->
    (length text <= startIndex -> windows = [])
    /\ (startIndex < length text ->
        Z.of_nat (List.length windows) * (chunkSize - overlap)
        < length text - startIndex + (chunkSize - overlap)).
Proof.
  intros Hov; induction fuel as [|fuel IH]; intros startIndex windows; simpl;
    [discriminate|].
  destruct (startIndex <? length text) eqn:Hlt.
  - apply Z.ltb_lt in Hlt.
    destruct (chunkWindows fuel text chunkSize overlap _) as [rest|] eqn:Hr;
      [|discriminate].
    intros [= <-]. split; [lia|]. intros _.
    pose proof (chunk_progress text chunkSize overlap startIndex) as Hp.
    destruct (IH _ _ Hr) as [Hempty Hmany].
    cbn [List.length]. rewrite Nat2Z.inj_succ.
    destruct (Z_lt_le_dec (chunkEnd text chunkSize startIndex - overlap) (length text))
      as [Hin|Hout].
    + specialize (Hmany Hin). nia.
    + rewrite (Hempty Hout). change (Z.of_nat (List.length [])) with 0. lia.
  - apply Z.ltb_ge in Hlt. intros [= <-]. split; [reflexivity|lia].
Qed.

Lemma last_default {A} (l : list A) (d d' : A) :
  l <> [] -> last l d = last l d'.
Proof.
  induction l as [|a [|b l'] IH]; intros H; [contradiction|reflexivity|].
  change (last (b :: l') d = last (b :: l') d'). apply IH. discriminate.
Qed.

Lemma chunkWindows_chain (text : jsstring) (chunkSize overlap : Z) :
  forall (fuel : nat) (startIndex : Z) (windows : list (Z * Z)),
    chunkWindows fuel text chunkSize overlap startIndex = Some windows ->
    chained overlap windows
    /\ match windows with
       | w :: _ => w = (startIndex, chunkEnd text chunkSize startIndex)
       | [] => length text <= startIndex
       end
    /\ length text + overlap <= snd (last windows (0, startIndex + overlap)).
Proof.
  induction fuel as [|fuel IH]; intros startIndex windows; simpl; [discriminate|].
  destruct (startIndex <? length text) eqn:Hlt.
  - destruct (chunkWindows fuel text chunkSize overlap _) as [rest|] eqn:Hr;
      [|discriminate].
    intros [= <-]. destruct (IH _ _ Hr) as (Hc & Hh & Hl).
    split; [|split; [reflexivity|]].
    + destruct rest as [|w2 rest']; [exact I|]. subst w2.
      split; [reflexivity|exact Hc].
    + destruct rest as [|w2 rest'].
      * simpl in *. lia.
      * change (last (_ :: w2 :: rest') (0, startIndex + overlap))
          with (last (w2 :: rest') (0, startIndex + overlap)).
        rewrite (last_default (w2 :: rest') _
                   (0, chunkEnd text chunkSize startIndex - overlap + overlap))
          by discriminate.
        exact Hl.
  - apply Z.ltb_ge in Hlt. intros [= <-]. simpl. repeat split; lia.
Qed.

Lemma trimStart_suffix (s : jsstring) : exists before, s = before ++ trimStart s.
Proof.
  induction s as [|c r [b Hb]]; simpl; [now exists []|].
  destruct (isWhiteSpace c); [|now exists []].
  exists (c :: b). simpl. now rewrite <- Hb.
Qed.

Lemma trimEnd_prefix (s : jsstring) : exists after, s = trimEnd s ++ after.
Proof.
  induction s as [|c r [a Ha]]; simpl; [now exists []|].
  destruct (trimEnd r) as [|d r'] eqn:Hr.
  - destruct (isWhiteSpace c); [exists (c :: r)|exists r]; reflexivity.
  - exists a. simpl. now rewrite Ha at 1.
Qed.

Lemma trim_piece (s : jsstring) : pieceOf (trim s) s.
Proof.
  unfold pieceOf, trim.
  destruct (trimStart_suffix s) as [b Hb].
  destruct (trimEnd_prefix (trimStart s)) as [a Ha].
  exists b, a. now rewrite <- Ha.
Qed.

Lemma substring_piece (t : jsstring) (a b : Z) : pieceOf (substring t a b) t.
Proof.
  unfold pieceOf, substring.
  generalize (Z.to_nat (Z.min (clamp a (length t)) (clamp b (length t)))).
  generalize (Z.to_nat (Z.max (clamp a (length t)) (clamp b (length t))
                        - Z.min (clamp a (length t)) (clamp b (length t)))).
  intros n from.
  exists (firstn from t), (skipn n (skipn from t)).
  now rewrite !firstn_skipn.
Qed.

Lemma pieceOf_trans (a b c : jsstring) : pieceOf a b -> pieceOf b c -> pieceOf a c.
Proof.
  intros (p1 & q1 & ->) (p2 & q2 & ->).
  exists (p2 ++ p1), (q1 ++ q2). now rewrite !app_assoc.
Qed.

(** X4. The number of chunks grows at most linearly with the text: with
    [overlap < chunkSize], a text longer than [chunkSize] gives fewer than
    [length / (chunkSize - overlap) + 1] chunks. *)
Theorem chunk_count_bound (text : jsstring) (chunkSize overlap : Z) (fuel : nat) :
  overlap < chunkSize ->
  chunkSize < length text ->
  (List.length text < fuel)%nat ->
  exists chunks,
    chunkDocument fuel text chunkSize overlap = Some chunks
    /\ Z.of_nat (List.length chunks) * (chunkSize - overlap)
       < length text + (chunkSize - overlap).
Proof.
  intros Hov Hlong Hfuel. unfold chunkDocument.
  destruct (length text <=? chunkSize) eqn:Hle; [apply Z.leb_le in Hle; lia|].
  rewrite chunkLoop_windows.
  destruct (chunkWindows_terminates text chunkSize overlap Hov fuel 0) as [ws Hws].
  { unfold length. lia. }
  rewrite Hws. simpl. eexists; split; [reflexivity|].
  rewrite length_map.
  destruct (chunkWindows_count text chunkSize overlap Hov fuel 0 ws Hws) as [He H].
  assert (0 <= length text) by (unfold length; lia).
  destruct (Z_lt_le_dec 0 (length text)) as [Hpos|Hzero].
  - specialize (H Hpos). lia.
  - rewrite (He Hzero). change (Z.of_nat (List.length [])) with 0. lia.
Qed.

Lemma chunk_count_bound_witness :
  exists chunks,
    chunkDocument 48 sampleText 10 3 = Some chunks
    /\ Z.of_nat (List.length chunks) * (10 - 3) < length sampleText + (10 - 3).
Proof.
  apply (chunk_count_bound sampleText 10 3 48); vm_compute; (reflexivity || lia).
Defined.

(** X5. For a text longer than [chunkSize], the first window starts at 0,
    every later window starts exactly [overlap] before the end of the one
    before it, and the loop goes on until a window ends [overlap] or more
    past the end of the text. *)
Theorem chunk_windows_chain (text : jsstring) (chunkSize overlap : Z) (fuel : nat) :
  0 <= chunkSize ->
  overlap < chunkSize ->
  chunkSize < length text ->
  (List.length text < fuel)%nat ->
  exists windows,
    chunkWindows fuel text chunkSize overlap 0 = Some windows
    /\ chunkDocument fuel text chunkSize overlap = Some (map (emitted text) windows)
    /\ hd_error windows = Some (0, chunkEnd text chunkSize 0)
    /\ chained overlap windows
    /\ length text + overlap <= snd (last windows (0, 0)).
Proof.
  intros Hsz Hov Hlong Hfuel.
  destruct (chunkWindows_terminates text chunkSize overlap Hov fuel 0) as [ws Hws].
  { unfold length. lia. }
  exists ws. split; [exact Hws|]. split.
  { unfold chunkDocument.
    destruct (length text <=? chunkSize) eqn:Hle; [apply Z.leb_le in Hle; lia|].
    now rewrite chunkLoop_windows, Hws. }
  destruct (chunkWindows_chain text chunkSize overlap fuel 0 ws Hws) as (Hc & Hh & Hl).
  destruct ws as [|w ws'].
  - lia.
  - subst w. split; [reflexivity|]. split; [exact Hc|].
    rewrite (last_default _ _ (0, 0 + overlap)) by discriminate. exact Hl.
Qed.

Lemma chunk_windows_chain_witness :
  exists windows,
    chunkWindows 48 sampleText 10 3 0 = Some windows
    /\ chunkDocument 48 sampleText 10 3 = Some (map (emitted sampleText) windows)
    /\ hd_error windows = Some (0, chunkEnd sampleText 10 0)
    /\ chained 3 windows
    /\ length sampleText + 3 <= snd (last windows (0, 0)).
Proof.
  apply (chunk_windows_chain sampleText 10 3 48);
    first [lia | vm_compute; first [reflexivity | lia]].
Defined.

(** X6. Every chunk of a text longer than [chunkSize] is a contiguous piece
    of the text with no white space at either end. *)
Theorem chunks_are_trimmed_pieces (text : jsstring) (chunkSize overlap : Z) (fuel : nat) :
  overlap < chunkSize ->
  chunkSize < length text ->
  (List.length text < fuel)%nat ->
  exists chunks,
    chunkDocument fuel text chunkSize overlap = Some chunks
    /\ Forall (fun chunk => pieceOf chunk text /\ trim chunk = chunk) chunks.
Proof.
  intros Hov Hlong Hfuel. unfold chunkDocument.
  destruct (length text <=? chunkSize) eqn:Hle; [apply Z.leb_le in Hle; lia|].
  rewrite chunkLoop_windows.
  destruct (chunkWindows_terminates text chunkSize overlap Hov fuel 0) as [ws ->].
  { unfold length. lia. }
  simpl. eexists; split; [reflexivity|].
  apply Forall_map, Forall_forall. intros [s e] _. unfold emitted; simpl. split.
  - eapply pieceOf_trans; [apply trim_piece|apply substring_piece].
  - apply trim_idem.
Qed.

Lemma chunks_are_trimmed_pieces_witness :
  exists chunks,
    chunkDocument 48 sampleText 10 3 = Some chunks
    /\ Forall (fun chunk => pieceOf chunk sampleText /\ trim chunk = chunk) chunks.
Proof.
  apply (chunks_are_trimmed_pieces sampleText 10 3 48); vm_compute; (reflexivity || lia).
Defined.

End ChunkWindows.

(** ** VectorStore: the life of the singleton *)

Section StoreLifecycle.
Import VectorStore RfpIngestionService Lifecycle.
Context {chroma : ChromaClient}.

Lemma initialize_initialized (name : jsstring) (st : Store) (w : World) :
  isInitialized st = true -> initialize name (st, w) = (Returned tt, (st, w)).
Proof.
  intros H. unfold initialize, bind, getStore. simpl. now rewrite H.
Qed.

Lemma initialize_consistent (name : jsstring) (st : Store) (w : World) :
  consistent st ->
  fst (initialize name (st, w)) <> Threw NotInitialized
  /\ consistent (fst (snd (initialize name (st, w)))).
Proof.
  intros Hc. destruct (isInitialized st) eqn:Hst.
  - rewrite (initialize_initialized name st w Hst). simpl.
    split; [discriminate|exact Hc].
  - destruct (initialize_outcome name st w Hst) as [(c & w' & ->)|(e & w' & ->)];
      simpl; (split; [discriminate|]); [|exact Hc].
    intros _. discriminate.
Qed.

Lemma call_store {A : Type} (f : World -> (ClientErr + A) * World)
  (st : Store) (w : World) :
  fst (snd (call f (st, w))) = st.
Proof. unfold call. destruct (f w) as [[e|a] w']; reflexivity. Qed.

(** A method that starts with the guards and goes on without touching the
    store object: never [NotInitialized] on a consistent store, and the store
    stays consistent. *)
Lemma guarded_consistent {A : Type} (k : Collection -> M A) (st : Store) (w : World) :
  (forall c s, fst (k c s) <> Threw NotInitialized /\ fst (snd (k c s)) = fst s) ->
  consistent st ->
  fst (bind ensureCollection k (st, w)) <> Threw NotInitialized
  /\ consistent (fst (snd (bind ensureCollection k (st, w)))).
Proof.
  intros Hk Hc. destruct (ensureCollection_consistent st w Hc) as [Hne Hcons].
  unfold bind.
  destruct (ensureCollection (st, w)) as [[c|e] [st1 w1]]; simpl in *.
  - destruct (Hk c (st1, w1)) as [H1 H2]. split; [exact H1|].
    simpl in H2. now rewrite H2.
  - split; [intros [= ->]; now apply Hne|exact Hcons].
Qed.

Lemma call_quiet {A : Type} (f : World -> (ClientErr + A) * World)
  (s : Store * World) :
  fst (call f s) <> Threw NotInitialized /\ fst (snd (call f s)) = fst s.
Proof.
  destruct s as [st w]. unfold call.
  destruct (f w) as [[e|a] w']; simpl; (split; [discriminate|reflexivity]).
Qed.

Lemma query_quiet (c : Collection) (query : jsstring) (limit : Z) (s : Store * World) :
  fst (bind (call (collectionQuery c query limit))
            (fun results => ret (mapResults results)) s) <> Threw NotInitialized
  /\ fst (snd (bind (call (collectionQuery c query limit))
                    (fun results => ret (mapResults results)) s)) = fst s.
Proof.
  destruct s as [st w]. unfold bind, call, ret.
  destruct (collectionQuery c query limit w) as [[e|a] w']; simpl;
    (split; [discriminate|reflexivity]).
Qed.

Lemma method_consistent (A : Type) (m : M A) (st : Store) (w : World) :
  method A m ->
  consistent st ->
  fst (m (st, w)) <> Threw NotInitialized
  /\ consistent (fst (snd (m (st, w)))).
Proof.
  intros Hm Hc. destruct Hm.
  - now apply initialize_consistent.
  - unfold addDocuments. apply guarded_consistent; [|exact Hc].
    intros c s. apply call_quiet.
  - unfold similaritySearch. apply guarded_consistent; [|exact Hc].
    intros c s. apply query_quiet.
  - unfold deleteCollection, bind, call, putStore.
    destruct (clientDeleteCollection name w) as [[e|u] w']; simpl.
    + split; [discriminate|exact Hc].
    + split; [discriminate|]. intros H. discriminate.
  - unfold getCollectionCount. apply guarded_consistent; [|exact Hc].
    intros c s. apply call_quiet.
Qed.

Lemma reachable_consistent (s : Store * World) :
  reachable s -> consistent (fst s).
Proof.
  induction 1 as [w|A m [st w] Hr IH Hm|st w w' Hr IH].
  - intros H. discriminate.
  - now apply method_consistent.
  - exact IH.
Qed.

(** X7. From a new store, whatever methods were called before and however
    they ended, the initialized flag is never set without a collection
    handle, and so no method ever throws [NotInitialized]. *)
Theorem NotInitialized_is_never_thrown (s : Store * World) (A : Type) (m : M A) :
  reachable s ->
  method A m ->
  consistent (fst s) /\ fst (m s) <> Threw NotInitialized.
Proof.
  intros Hr Hm. pose proof (reachable_consistent s Hr) as Hc.
  split; [exact Hc|]. destruct s as [st w].
  now apply method_consistent.
Qed.

(** X8. Only the first successful [initialize] counts: a second call, with
    the same or another collection name, changes nothing and calls nothing,
    so two calls in a row are one call. *)
Theorem initialize_twice (name1 name2 : jsstring) (s : Store * World) :
  bind (initialize name1) (fun _ => initialize name2) s = initialize name1 s.
Proof.
  destruct s as [st w]. unfold bind at 1.
  destruct (isInitialized st) eqn:Hst.
  - rewrite (initialize_initialized name1 st w Hst).
    now rewrite (initialize_initialized name2 st w Hst).
  - destruct (initialize_outcome name1 st w Hst) as [(c & w' & ->)|(e & w' & ->)];
      [|reflexivity].
    now rewrite initialize_initialized.
Qed.

(** X9. [resetDatabase] throws what the deletion throws, leaving the store
    object as it was, and otherwise starts again from a new store: when it
    returns, the store is initialized and holds a collection handle; when the
    fresh initialization throws, the store is left detached. *)
Theorem resetDatabase_outcome (st : Store) (w : World) :
  match clientDeleteCollection (str "rfp_documents") w with
  | (inl e, w') => resetDatabase (st, w) = (Threw (ClientFailure e), (st, w'))
  | (inr _, w') =>
      resetDatabase (st, w) = initialize defaultCollectionName (fresh, w')
      /\ match resetDatabase (st, w) with
         | (Returned _, (st', _)) =>
             isInitialized st' = true /\ collection st' <> None
         | (Threw e, (st', _)) => e <> NotInitialized /\ st' = fresh
         end
  end.
Proof.
  unfold resetDatabase, deleteCollection, bind, call, putStore.
  destruct (clientDeleteCollection (str "rfp_documents") w) as [[e|[]] w'];
    [reflexivity|].
  split; [reflexivity|].
  change (mkStore None false) with fresh.
  destruct (initialize_outcome defaultCollectionName fresh w' eq_refl)
    as [(c & w'' & ->)|(e & w'' & ->)]; simpl.
  - split; [reflexivity|discriminate].
  - split; [discriminate|reflexivity].
Qed.

(** X10. Once the store is initialized, adding, searching and counting never
    replace or drop its collection handle, whether they return or throw. *)
Theorem attached_store_is_kept (st : Store) (w : World)
  (docs : list Document) (query : jsstring) (limit : Z) :
  isInitialized st = true ->
  fst (snd (addDocuments docs (st, w))) = st
  /\ fst (snd (similaritySearch query limit (st, w))) = st
  /\ fst (snd (getCollectionCount (st, w))) = st.
Proof.
  intros Hst. unfold addDocuments, similaritySearch, getCollectionCount.
  unfold bind at 1 2 4.
  rewrite (ensureCollection_initialized st w Hst).
  destruct (collection st) as [c|]; [|repeat split].
  repeat split.
  - apply (call_quiet _ (st, w)).
  - apply (query_quiet c query limit (st, w)).
  - apply (call_quiet _ (st, w)).
Qed.

End StoreLifecycle.

Section StoreLifecycleExamples.
Import VectorStore RfpIngestionService Lifecycle.

Lemma NotInitialized_is_never_thrown_witness :
  consistent
    (fst (snd (deleteCollection (chroma := plainClient) defaultCollectionName
                 (snd (initialize (chroma := plainClient) defaultCollectionName
                         (fresh, []))))))
  /\ fst (addDocuments (chroma := plainClient) [sampleDocument]
            (snd (deleteCollection (chroma := plainClient) defaultCollectionName
                    (snd (initialize (chroma := plainClient) defaultCollectionName
                            (fresh, []))))))
     <> Threw NotInitialized.
Proof.
  apply (NotInitialized_is_never_thrown (chroma := plainClient)
           (snd (deleteCollection (chroma := plainClient) defaultCollectionName
                   (snd (initialize (chroma := plainClient) defaultCollectionName
                           (fresh, [])))))
           unit (addDocuments [sampleDocument])).
  - apply reach_call; [|apply m_deleteCollection].
    apply reach_call; [|apply m_initialize].
    exact (reach_new (chroma := plainClient) []).
  - apply m_addDocuments.
Defined.

Lemma attached_store_is_kept_witness :
  fst (snd (addDocuments (chroma := plainClient) [sampleDocument]
              (mkStore (chroma := plainClient) (Some defaultCollectionName) true, [])))
  = mkStore (chroma := plainClient) (Some defaultCollectionName) true
  /\ fst (snd (similaritySearch (chroma := plainClient) (str "X") 5
                 (mkStore (chroma := plainClient) (Some defaultCollectionName) true, [])))
     = mkStore (chroma := plainClient) (Some defaultCollectionName) true
  /\ fst (snd (getCollectionCount (chroma := plainClient)
                 (mkStore (chroma := plainClient) (Some defaultCollectionName) true, [])))
     = mkStore (chroma := plainClient) (Some defaultCollectionName) true.
Proof.
  apply (attached_store_is_kept (chroma := plainClient)
           (mkStore (chroma := plainClient) (Some defaultCollectionName) true) []
           [sampleDocument] (str "X") 5).
  reflexivity.
Defined.

End StoreLifecycleExamples.

(** ** analyzeEligibility: what is missing, and when a bid is eligible *)

Section Eligibility.
Import VectorStore RfpAnalyzer.

Lemma check_requirements_fold (company : CompanyDetails) (reqs missing : list jsstring)
  (ok : bool) :
  fold_left
    (fun '(missing, ok) req =>
       if negb (checkRequirementMet company req)
       then (missing ++ [req], false)
       else (missing, ok))
    reqs (missing, ok)
  = (missing ++ filter (fun req => negb (checkRequirementMet company req)) reqs,
     ok && forallb (checkRequirementMet company) reqs).
Proof.
  revert missing ok; induction reqs as [|r reqs IH]; intros missing ok; simpl.
  - now rewrite app_nil_r, andb_true_r.
  - destruct (checkRequirementMet company r); simpl; rewrite IH.
    + reflexivity.
    + now rewrite <- app_assoc, andb_false_r.
Qed.

Lemma check_results_fold (company : CompanyDetails) (results : list SearchResult)
  (missing : list jsstring) (ok : bool) (text : jsstring) :
  fold_left
    (fun '(missing, ok, analysisText) result =>
       let '(missing', ok') :=
         fold_left
           (fun '(missing, ok) req =>
              if negb (checkRequirementMet company req)
              then (missing ++ [req], false)
              else (missing, ok))
           (extractRequirements (content result)) (missing, ok) in
       (missing', ok', analysisText ++ content result ++ nl ++ nl))
    results (missing, ok, text)
  = (missing
       ++ filter (fun req => negb (checkRequirementMet company req))
            (flat_map (fun result => extractRequirements (content result)) results),
     ok && forallb (checkRequirementMet company)
             (flat_map (fun result => extractRequirements (content result)) results),
     text ++ List.concat (map (fun result => content result ++ nl ++ nl) results)).
Proof.
  revert missing ok text; induction results as [|r results IH];
    intros missing ok text; simpl.
  - now rewrite !app_nil_r, andb_true_r.
  - rewrite check_requirements_fold, IH.
    rewrite filter_app, forallb_app, <- !app_assoc, andb_assoc. reflexivity.
Qed.

Lemma assessEligibility_fields (company : CompanyDetails) (results : list SearchResult) :
  missingRequirements (assessEligibility company results)
  = filter (fun req => negb (checkRequirementMet company req))
      (flat_map (fun result => extractRequirements (content result)) results)
  /\ eligible (assessEligibility company results)
     = forallb (checkRequirementMet company)
         (flat_map (fun result => extractRequirements (content result)) results).
Proof.
  unfold assessEligibility. destruct results as [|r results]; [split; reflexivity|].
  pose proof (check_results_fold company (r :: results) [] true []) as H.
  match goal with
  | |- context [fold_left ?f (r :: results) ?a] =>
      destruct (fold_left f (r :: results) a) as [[missing ok] text] eqn:E
  end.
  assert (E' : (missing, ok, text)
               = ([] ++ filter (fun req => negb (checkRequirementMet company req))
                          (flat_map (fun result => extractRequirements (content result))
                             (r :: results)),
                  true && forallb (checkRequirementMet company)
                            (flat_map (fun result => extractRequirements (content result))
                               (r :: results)),
                  [] ++ List.concat
                          (map (fun result => content result ++ nl ++ nl) (r :: results))))
    by (rewrite <- H; symmetry; exact E).
  injection E' as -> -> _. split; reflexivity.
Qed.

Lemma forallb_filter_negb {A} (p : A -> bool) (l : list A) :
  forallb p l = true <-> filter (fun x => negb (p x)) l = [].
Proof.
  induction l as [|x l IH]; simpl; [tauto|].
  destruct (p x); simpl; [exact IH|]. split; discriminate.
Qed.

(** X11. The missing requirements are exactly the requirement lines
    extracted from the retrieved chunks that the profile does not meet, in
    the order of retrieval, repeated as often as they were retrieved. *)
Theorem missing_requirements_are_the_unmet_lines
  (company : CompanyDetails) (results : list SearchResult) :
  missingRequirements (assessEligibility company results)
  = filter (fun req => negb (checkRequirementMet company req))
      (flat_map (fun result => extractRequirements (content result)) results).
Proof. apply assessEligibility_fields. Qed.

(** X12. The verdict is "eligible" exactly when no requirement is missing;
    in particular a retrieval that yields no requirement line at all makes
    every company eligible. *)
Theorem eligible_iff_nothing_missing
  (company : CompanyDetails) (results : list SearchResult) :
  (eligible (assessEligibility company results) = true
   <-> missingRequirements (assessEligibility company results) = [])
  /\ (flat_map (fun result => extractRequirements (content result)) results = [] ->
      eligible (assessEligibility company results) = true).
Proof.
  destruct (assessEligibility_fields company results) as [-> ->].
  split; [apply forallb_filter_negb|]. now intros ->.
Qed.

(** X13. In the summary, the sentence "Specific requirements could not be
    determined" is never written: for the result of an eligibility analysis
    the section lists the missing requirements or says that all are met. *)
Theorem undetermined_requirements_never_reported
  (company : CompanyDetails) (results : list SearchResult) :
  eligibilitySection (eligible (assessEligibility company results))
    (missingRequirements (assessEligibility company results))
  = str "## Eligibility Assessment" ++ nl ++ nl
    ++ str "**Overall Eligibility:** "
    ++ (if eligible (assessEligibility company results)
        then str "Eligible to bid" else str "Not eligible to bid")
    ++ nl ++ nl
    ++ match missingRequirements (assessEligibility company results) with
       | _ :: _ =>
           str "**Missing Requirements:**" ++ nl ++ nl
           ++ bullets (missingRequirements (assessEligibility company results)) ++ nl
       | [] => str "**All requirements met.**" ++ nl ++ nl
       end.
Proof.
  destruct (assessEligibility_fields company results) as [Hm He].
  pose proof (forallb_filter_negb (checkRequirementMet company)
    (flat_map (fun result => extractRequirements (content result)) results)) as Hiff.
  rewrite <- Hm, <- He in Hiff.
  unfold eligibilitySection.
  destruct (missingRequirements (assessEligibility company results)); [|reflexivity].
  now rewrite (proj2 Hiff eq_refl).
Qed.

Lemma existsb_incl {A} (p : A -> bool) (l1 l2 : list A) :
  incl l1 l2 -> existsb p l1 = true -> existsb p l2 = true.
Proof.
  intros Hi H. apply existsb_exists in H as (x & Hx & Hp).
  apply existsb_exists. exists x. split; [now apply Hi|exact Hp].
Qed.

(** X14. Qualifications only help: when a second profile has all the
    certifications, experience entries and capabilities of a first one,
    every requirement line the first meets the second meets too, and a bid
    that is eligible for the first is eligible for the second. *)
Theorem more_qualifications_never_hurt (c1 c2 : CompanyDetails) :
  incl (certifications c1) (certifications c2) ->
  incl (experience c1) (experience c2) ->
  incl (capabilities c1) (capabilities c2) ->
  (forall requirement,
      checkRequirementMet c1 requirement = true ->
      checkRequirementMet c2 requirement = true)
  /\ (forall results,
         eligible (assessEligibility c1 results) = true ->
         eligible (assessEligibility c2 results) = true).
Proof.
  intros Hce Hex Hca.
  assert (Hcheck : forall requirement,
             checkRequirementMet c1 requirement = true ->
             checkRequirementMet c2 requirement = true).
  { intros requirement. unfold checkRequirementMet.
    destruct (includes _ (str "certification") || includes _ (str "certified")).
    - now apply existsb_incl.
    - destruct (experienceMatch requirement).
      + apply existsb_incl. now apply incl_map.
      + now apply existsb_incl. }
  split; [exact Hcheck|].
  intros results.
  destruct (assessEligibility_fields c1 results) as [_ ->].
  destruct (assessEligibility_fields c2 results) as [_ ->].
  rewrite !forallb_forall. intros H x Hx. apply Hcheck, H, Hx.
Qed.

Lemma more_qualifications_never_hurt_witness :
  (forall requirement,
      checkRequirementMet (fixedProfile (str "Acme") []) requirement = true ->
      checkRequirementMet
        (mkCompanyDetails (str "Acme") [str "ISO 9001"; str "CMMI Level 5"]
           [(str "IT", mkExperience 5)] [str "Cloud"; str "Data Analytics"] [])
        requirement = true)
  /\ (forall results,
         eligible (assessEligibility (fixedProfile (str "Acme") []) results) = true ->
         eligible
           (assessEligibility
              (mkCompanyDetails (str "Acme") [str "ISO 9001"; str "CMMI Level 5"]
                 [(str "IT", mkExperience 5)] [str "Cloud"; str "Data Analytics"] [])
              results) = true).
Proof.
  apply (more_qualifications_never_hurt (fixedProfile (str "Acme") [])
           (mkCompanyDetails (str "Acme") [str "ISO 9001"; str "CMMI Level 5"]
              [(str "IT", mkExperience 5)] [str "Cloud"; str "Data Analytics"] []));
    simpl; intros x Hx; simpl in *; intuition.
Defined.

End Eligibility.

(** ** analyzeContractRisks: the flagged clauses and their suggestions *)

Section Risks.
Import VectorStore RfpAnalyzer.

Lemma memberOf_In (x : jsstring) (l : list jsstring) :
  memberOf x l = true <-> In x l.
Proof.
  unfold memberOf. rewrite existsb_exists. split.
  - intros (y & Hy & H). destruct (list_eq_dec ascii_dec y x); [now subst|discriminate].
  - intros H. exists x. split; [exact H|].
    now destruct (list_eq_dec ascii_dec x x).
Qed.

Lemma riskyClauses_fold (text : jsstring) (sections acc : list jsstring) :
  incl sections (splitSections text) ->
  NoDup acc ->
  Forall (fun clause =>
            20 < length clause
            /\ exists section term,
                 In section (splitSections text)
                 /\ clause = trim section ++ str "."
                 /\ In term riskTerms
                 /\ includes (toLowerCase section) term = true) acc ->
  let out :=
    fold_left
      (fun riskyClauses section =>
         match find (fun term => includes (toLowerCase section) term) riskTerms with
         | Some _ =>
             let trimmedSection := trim section ++ str "." in
             if (20 <? length trimmedSection)
                && negb (memberOf trimmedSection riskyClauses)
             then riskyClauses ++ [trimmedSection]
             else riskyClauses
         | None => riskyClauses
         end)
      sections acc in
  NoDup out
  /\ Forall (fun clause =>
               20 < length clause
               /\ exists section term,
                    In section (splitSections text)
                    /\ clause = trim section ++ str "."
                    /\ In term riskTerms
                    /\ includes (toLowerCase section) term = true) out.
Proof.
  revert acc; induction sections as [|sec sections IH]; intros acc Hin Hnd Hall;
    cbn [fold_left]; [now split|].
  assert (Hsec : In sec (splitSections text)) by (apply Hin; now left).
  assert (Hrest : incl sections (splitSections text))
    by (intros x Hx; apply Hin; now right).
  destruct (find (fun term => includes (toLowerCase sec) term) riskTerms)
    as [term|] eqn:Hf; [|now apply IH].
  destruct ((20 <? length (trim sec ++ str "."))
            && negb (memberOf (trim sec ++ str ".") acc)) eqn:Hc; [|now apply IH].
  apply andb_true_iff in Hc as [Hlen Hnew].
  apply Z.ltb_lt in Hlen. apply negb_true_iff in Hnew.
  apply find_some in Hf as [Ht Hi].
  apply IH; [exact Hrest| |].
  - apply NoDup_app; [exact Hnd|repeat constructor; intros []|].
    intros x Hx [<-|[]]. apply memberOf_In in Hx. congruence.
  - apply Forall_app. split; [exact Hall|]. constructor; [|constructor].
    split; [exact Hlen|]. exists sec, term. repeat split; auto.
Qed.

(** X15. The clauses [extractRiskyClauses] returns are pairwise different,
    each is longer than 20 characters, and each is a section of the text,
    trimmed and closed with a full stop, that contains one of the risk terms
    (up to letter case). *)
Theorem risky_clauses_shape (text : jsstring) :
  NoDup (extractRiskyClauses text)
  /\ Forall (fun clause =>
               20 < length clause
               /\ exists section term,
                    In section (splitSections text)
                    /\ clause = trim section ++ str "."
                    /\ In term riskTerms
                    /\ includes (toLowerCase section) term = true)
            (extractRiskyClauses text).
Proof.
  apply (riskyClauses_fold text (splitSections text) []).
  - apply incl_refl.
  - constructor.
  - constructor.
Qed.

Lemma graded_terms_are_risk_terms :
  forallb (fun term => memberOf term riskTerms) (highRiskTerms ++ mediumRiskTerms)
  = true.
Proof. reflexivity. Qed.

(** X16. The two term lists agree in one direction: a clause that
    [assessRiskLevel] does not rate Low contains one of the risk terms the
    extractor looks for. *)
Theorem graded_clause_has_risk_term (clause : jsstring) :
  assessRiskLevel clause <> str "Low" ->
  exists term,
    In term riskTerms /\ includes (toLowerCase clause) term = true.
Proof.
  unfold assessRiskLevel. intros H.
  assert (Hex : existsb (fun term => includes (toLowerCase clause) term)
                  (highRiskTerms ++ mediumRiskTerms) = true).
  { rewrite existsb_app.
    destruct (existsb _ highRiskTerms); [reflexivity|].
    destruct (existsb _ mediumRiskTerms); [reflexivity|]. now contradiction H. }
  apply existsb_exists in Hex as (term & Hin & Hinc).
  exists term. split; [|exact Hinc].
  apply memberOf_In.
  exact (proj1 (forallb_forall _ _) graded_terms_are_risk_terms term Hin).
Qed.

Lemma graded_clause_has_risk_term_witness :
  exists term,
    In term riskTerms /\ includes (toLowerCase liabilitySentence) term = true.
Proof.
  apply (graded_clause_has_risk_term liabilitySentence).
  vm_compute. discriminate.
Defined.

Lemma getKey_setKey (k k' v : jsstring) (obj : list (jsstring * jsstring)) :
  getKey k (setKey k' v obj)
  = if list_eq_dec ascii_dec k' k then Some v else getKey k obj.
Proof.
  induction obj as [|[k0 v0] r IH]; simpl.
  - destruct (list_eq_dec ascii_dec k' k); reflexivity.
  - destruct (list_eq_dec ascii_dec k0 k') as [->|Hne]; simpl.
    + destruct (list_eq_dec ascii_dec k' k); reflexivity.
    + destruct (list_eq_dec ascii_dec k0 k) as [->|Hne'].
      * destruct (list_eq_dec ascii_dec k' k); [congruence|reflexivity].
      * exact IH.
Qed.

Lemma suggestModification_not_empty (clause : jsstring) :
  suggestModification clause <> [].
Proof.
  unfold suggestModification.
  repeat match goal with
         | |- (if ?b then _ else _) <> _ => destruct b
         end; discriminate.
Qed.

Lemma collect_clauses_fold (clauses acc : list jsstring)
  (mods : list (jsstring * jsstring)) :
  Forall (fun clause => getKey clause mods = Some (suggestModification clause)) acc ->
  let out :=
    fold_left
      (fun '(clauses, modifications) clause =>
         (clauses ++ [clause],
          setKey clause (suggestModification clause) modifications))
      clauses (acc, mods) in
  fst out = acc ++ clauses
  /\ Forall (fun clause => getKey clause (snd out) = Some (suggestModification clause))
            (fst out).
Proof.
  revert acc mods; induction clauses as [|c clauses IH]; intros acc mods Hall; simpl.
  - now rewrite app_nil_r.
  - destruct (IH (acc ++ [c]) (setKey c (suggestModification c) mods)) as [H1 H2].
    + apply Forall_app. split.
      * eapply Forall_impl; [|exact Hall]. intros x Hx. rewrite getKey_setKey.
        destruct (list_eq_dec ascii_dec c x); [now subst|exact Hx].
      * constructor; [|constructor]. rewrite getKey_setKey.
        now destruct (list_eq_dec ascii_dec c c).
    + split; [now rewrite H1, <- app_assoc|exact H2].
Qed.

Lemma collectRisks_fold (results : list SearchResult) (acc : list jsstring)
  (mods : list (jsstring * jsstring)) (text : jsstring) :
  Forall (fun clause => getKey clause mods = Some (suggestModification clause)) acc ->
  let out :=
    fold_left
      (fun '(riskyClauses, suggestedModifications, riskText) result =>
         let '(riskyClauses', suggestedModifications') :=
           fold_left
             (fun '(clauses, modifications) clause =>
                (clauses ++ [clause],
                 setKey clause (suggestModification clause) modifications))
             (extractRiskyClauses (content result))
             (riskyClauses, suggestedModifications) in
         (riskyClauses', suggestedModifications',
          riskText ++ content result ++ nl ++ nl))
      results (acc, mods, text) in
  fst (fst out)
  = acc ++ flat_map (fun result => extractRiskyClauses (content result)) results
  /\ Forall (fun clause =>
               getKey clause (snd (fst out)) = Some (suggestModification clause))
            (fst (fst out)).
Proof.
  revert acc mods text; induction results as [|r results IH];
    intros acc mods text Hall; simpl.
  - now rewrite app_nil_r.
  - pose proof (collect_clauses_fold (extractRiskyClauses (content r)) acc mods Hall)
      as [H1 H2].
    destruct (fold_left _ (extractRiskyClauses (content r)) (acc, mods))
      as [acc' mods'].
    simpl in H1, H2. subst acc'.
    destruct (IH _ mods' (text ++ content r ++ nl ++ nl) H2) as [H3 H4].
    split; [|exact H4].
    etransitivity; [exact H3|]. now rewrite <- app_assoc.
Qed.

(** X17. [analyzeContractRisks] lists the flagged clauses of all retrieved
    chunks in order, and records for each of them the suggestion
    [suggestModification] gives; so the report never falls back on its
    stock sentence "Request clarification or modification." *)
Theorem every_risky_clause_has_its_suggestion (results : list SearchResult) :
  riskyClauses (assessRisks results)
  = flat_map (fun result => extractRiskyClauses (content result)) results
  /\ Forall (fun clause =>
               getKey clause (suggestedModifications (assessRisks results))
               = Some (suggestModification clause)
               /\ modificationOr (suggestedModifications (assessRisks results)) clause
                  = suggestModification clause)
            (riskyClauses (assessRisks results)).
Proof.
  unfold assessRisks, collectRisks.
  pose proof (collectRisks_fold results [] [] [] (Forall_nil _)) as [H1 H2].
  match goal with
  | |- context [fold_left ?f results ?a] =>
      destruct (fold_left f results a) as [[clauses mods] text] eqn:E
  end.
  match type of H1 with
  | context [fold_left ?f results ?a] =>
      assert (E' : fold_left f results a = (clauses, mods, text)) by exact E;
      rewrite E' in H1, H2
  end.
  simpl in *. split; [exact H1|].
  eapply Forall_impl; [|exact H2]. intros clause Hk. split; [exact Hk|].
  unfold modificationOr. rewrite Hk.
  pose proof (suggestModification_not_empty clause).
  now destruct (suggestModification clause).
Qed.

End Risks.

(** ** summarizeText and generateRfpSummary *)

Section Summary.
Import VectorStore RfpAnalyzer.

Lemma substring_from_start (t : jsstring) (b : Z) :
  exists n, substring t 0 b = firstn n t /\ Z.of_nat n <= Z.max 0 b.
Proof.
  exists (Z.to_nat (clamp b (length t))). split.
  - unfold substring.
    replace (Z.to_nat (Z.min (clamp 0 (length t)) (clamp b (length t)))) with 0%nat
      by (unfold clamp, length; lia).
    cbn [skipn]. f_equal. unfold clamp, length. lia.
  - unfold clamp, length. lia.
Qed.

(** X18. [summarizeText] returns a text that fits unchanged; a longer text
    is cut to a prefix of at most [maxLength] characters, followed by the
    marker " [...]" - so the result never has more than [maxLength + 6]
    characters. *)
Theorem summarizeText_shape (text : jsstring) (maxLength : Z) :
  (length text <= maxLength /\ summarizeText text maxLength = text)
  \/ (maxLength < length text
      /\ exists kept rest,
           summarizeText text maxLength = kept ++ str " [...]"
           /\ text = kept ++ rest
           /\ length kept <= Z.max 0 maxLength
           /\ length (summarizeText text maxLength) <= Z.max 0 maxLength + 6).
Proof.
  unfold summarizeText.
  destruct (length text <=? maxLength) eqn:Hle.
  - left. apply Z.leb_le in Hle. now split.
  - right. apply Z.leb_gt in Hle. split; [exact Hle|].
    destruct (substring_from_start text maxLength) as (n & -> & Hn).
    assert (Hcut : exists k,
               (if pastSeventyPercent (lastIndexOf (firstn n text) "."%char) maxLength
                then substring (firstn n text) 0
                       (lastIndexOf (firstn n text) "."%char + 1)
                else firstn n text) = firstn k text
               /\ Z.of_nat k <= Z.max 0 maxLength).
    { destruct (pastSeventyPercent _ maxLength); [|now exists n].
      destruct (substring_from_start (firstn n text)
                  (lastIndexOf (firstn n text) "."%char + 1)) as (m & -> & _).
      exists (Nat.min m n). split; [apply firstn_firstn|lia]. }
    destruct Hcut as (k & -> & Hk).
    exists (firstn k text), (skipn k text).
    assert (Hlen : length (firstn k text) <= Z.max 0 maxLength).
    { unfold length. rewrite length_firstn. lia. }
    repeat split.
    + symmetry. apply firstn_skipn.
    + exact Hlen.
    + unfold length in *. rewrite length_app.
      change (List.length (str " [...]")) with 6%nat. lia.
Qed.

(** X19. [generateRfpSummary] is four retrievals in a row - overview (5
    results), eligibility, submission and risks (10 each): it leaves the
    store and the database as these four searches leave them, it throws
    exactly what the first failing search throws, and it returns when all
    four return. *)
Theorem summary_is_four_searches {chroma : ChromaClient}
  (company : CompanyDetails) (rfpId : jsstring) (s : Store * World) :
  match
    bind (similaritySearch overviewQuery 5) (fun _ =>
    bind (similaritySearch eligibilityQuery 10) (fun _ =>
    bind (similaritySearch submissionQuery 10) (fun _ =>
    similaritySearch riskQuery 10))) s
  with
  | (Returned _, s') =>
      exists summary, generateRfpSummary company rfpId s = (Returned summary, s')
  | (Threw e, s') => generateRfpSummary company rfpId s = (Threw e, s')
  end.
Proof.
  unfold generateRfpSummary, analyzeEligibility, extractSubmissionRequirements,
    analyzeContractRisks, bind, ret.
  destruct (similaritySearch overviewQuery 5 s) as [[r1|e1] s1]; [|reflexivity].
  destruct (similaritySearch eligibilityQuery 10 s1) as [[r2|e2] s2]; [|reflexivity].
  destruct (similaritySearch submissionQuery 10 s2) as [[r3|e3] s3]; [|reflexivity].
  destruct (similaritySearch riskQuery 10 s3) as [[r4|e4] s4]; [|reflexivity].
  eexists. reflexivity.
Qed.

Lemma collectBuckets_fold (results : list SearchResult)
  (f d dl : list jsstring) :
  fold_left
    (fun '(formatRequirements, documentRequirements, deadlines) result =>
       (formatRequirements ++ extractFormatRequirements (content result),
        documentRequirements ++ extractDocumentRequirements (content result),
        deadlines ++ extractDeadlines (content result)))
    results (f, d, dl)
  = (f ++ flat_map (fun r => extractFormatRequirements (content r)) results,
     d ++ flat_map (fun r => extractDocumentRequirements (content r)) results,
     dl ++ flat_map (fun r => extractDeadlines (content r)) results).
Proof.
  revert f d dl; induction results as [|r results IH]; intros f d dl; simpl.
  - now rewrite !app_nil_r.
  - now rewrite IH, <- !app_assoc.
Qed.

Lemma uniq_spec (l : list jsstring) :
  NoDup (uniq l) /\ (forall x, In x (uniq l) <-> In x l).
Proof.
  destruct (uniqFrom_spec [] l) as [Hnd Hin]. split; [exact Hnd|].
  intros x. rewrite (Hin x). simpl. tauto.
Qed.

(** X20. The three lists [extractSubmissionRequirements] returns have no
    duplicates, and each holds exactly the lines its extractor found in the
    retrieved chunks. *)
Theorem returned_buckets_are_sets (results : list SearchResult) :
  (NoDup (formatRequirements (summarizeSubmission results))
   /\ forall x, In x (formatRequirements (summarizeSubmission results))
                <-> In x (flat_map (fun r => extractFormatRequirements (content r))
                            results))
  /\ (NoDup (documentRequirements (summarizeSubmission results))
      /\ forall x, In x (documentRequirements (summarizeSubmission results))
                   <-> In x (flat_map (fun r => extractDocumentRequirements (content r))
                               results))
  /\ (NoDup (deadlines (summarizeSubmission results))
      /\ forall x, In x (deadlines (summarizeSubmission results))
                   <-> In x (flat_map (fun r => extractDeadlines (content r)) results)).
Proof.
  unfold summarizeSubmission, collectBuckets.
  rewrite (collectBuckets_fold results [] [] []). simpl.
  repeat split; try apply uniq_spec; intros H; now apply uniq_spec.
Qed.

End Summary.

(** ** checkRequirementMet and letter case *)

Section LetterCase.
Import VectorStore RfpAnalyzer.

Lemma lowerChar_idem (c : ascii) : lowerChar (lowerChar c) = lowerChar c.
Proof. destruct c as [[] [] [] [] [] [] [] []]; reflexivity. Qed.

Lemma isDigit_lowerChar (c : ascii) : isDigit (lowerChar c) = isDigit c.
Proof. destruct c as [[] [] [] [] [] [] [] []]; reflexivity. Qed.

Lemma isWhiteSpace_lowerChar (c : ascii) : isWhiteSpace (lowerChar c) = isWhiteSpace c.
Proof. destruct c as [[] [] [] [] [] [] [] []]; reflexivity. Qed.

Lemma digit_lowerChar (c : ascii) : isDigit c = true -> lowerChar c = c.
Proof.
  destruct c as [[] [] [] [] [] [] [] []]; intros H; try reflexivity; discriminate H.
Qed.

Lemma toLowerCase_idem (s : jsstring) : toLowerCase (toLowerCase s) = toLowerCase s.
Proof.
  unfold toLowerCase. rewrite map_map. apply map_ext, lowerChar_idem.
Qed.

Lemma spanWhile_lower (p : ascii -> bool) (s : jsstring) :
  (forall c, p (lowerChar c) = p c) ->
  spanWhile p (toLowerCase s)
  = (toLowerCase (fst (spanWhile p s)), toLowerCase (snd (spanWhile p s))).
Proof.
  intros Hp. induction s as [|c r IH]; simpl; [reflexivity|].
  rewrite Hp. destruct (p c); [|reflexivity].
  rewrite IH. now destruct (spanWhile p r).
Qed.

Lemma spanWhile_all (p : ascii -> bool) (s : jsstring) :
  Forall (fun c => p c = true) (fst (spanWhile p s)).
Proof.
  induction s as [|c r IH]; simpl; [constructor|].
  destruct (p c) eqn:Hc; [|constructor].
  destruct (spanWhile p r). simpl in *. now constructor.
Qed.

Lemma many1_lower (p : ascii -> bool) (s : jsstring) :
  (forall c, p (lowerChar c) = p c) ->
  many1 p (toLowerCase s)
  = option_map (fun ab => (toLowerCase (fst ab), toLowerCase (snd ab))) (many1 p s).
Proof.
  intros Hp. unfold many1. rewrite (spanWhile_lower p s Hp).
  destruct (spanWhile p s) as [[|a0 a] b]; reflexivity.
Qed.

Lemma many1_all (p : ascii -> bool) (s a r : jsstring) :
  many1 p s = Some (a, r) -> Forall (fun c => p c = true) a.
Proof.
  unfold many1. pose proof (spanWhile_all p s) as H.
  destruct (spanWhile p s) as [[|a0 a'] b]; [discriminate|].
  now intros [= <- <-].
Qed.

Lemma literalCI_lower (lit s : jsstring) :
  literalCI lit (toLowerCase s) = option_map toLowerCase (literalCI lit s).
Proof.
  revert s; induction lit as [|p ps IH]; intros s; [now destruct s|].
  destruct s as [|c r]; [reflexivity|]. simpl.
  rewrite lowerChar_idem. destruct (Ascii.eqb (lowerChar c) p); [apply IH|reflexivity].
Qed.

Lemma digits_lower (d : jsstring) :
  Forall (fun c => isDigit c = true) d -> toLowerCase d = d.
Proof.
  induction 1 as [|c d Hc _ IH]; simpl; [reflexivity|].
  now rewrite IH, (digit_lowerChar c Hc).
Qed.

Lemma experienceAt_lower (s : jsstring) :
  experienceAt (toLowerCase s) = experienceAt s.
Proof.
  unfold experienceAt.
  rewrite (many1_lower isDigit s isDigit_lowerChar).
  destruct (many1 isDigit s) as [[digits r1]|] eqn:Hm; [|reflexivity].
  cbn [option_map fst snd].
  rewrite (digits_lower digits (many1_all isDigit s digits r1 Hm)).
  rewrite (many1_lower isWhiteSpace r1 isWhiteSpace_lowerChar).
  destruct (many1 isWhiteSpace r1) as [[w r2]|]; [|reflexivity].
  cbn [option_map fst snd].
  rewrite literalCI_lower.
  destruct (literalCI (str "year") r2) as [r3|]; [|reflexivity].
  cbn [option_map].
  rewrite (many1_lower isWhiteSpace r3 isWhiteSpace_lowerChar).
  rewrite (literalCI_lower (str "s") r3).
  destruct (literalCI (str "s") r3) as [r4|]; cbn [option_map].
  - rewrite (many1_lower isWhiteSpace r4 isWhiteSpace_lowerChar).
    destruct (many1 isWhiteSpace r4) as [[w4 r5]|]; cbn [option_map fst snd].
    + rewrite literalCI_lower.
      destruct (literalCI (str "experience") r5); cbn [option_map]; [reflexivity|].
      destruct (many1 isWhiteSpace r3) as [[w3 r6]|]; cbn [option_map fst snd];
        [|reflexivity].
      rewrite literalCI_lower. now destruct (literalCI (str "experience") r6).
    + destruct (many1 isWhiteSpace r3) as [[w3 r6]|]; cbn [option_map fst snd];
        [|reflexivity].
      rewrite literalCI_lower. now destruct (literalCI (str "experience") r6).
  - destruct (many1 isWhiteSpace r3) as [[w3 r6]|]; cbn [option_map fst snd];
      [|reflexivity].
    rewrite literalCI_lower. now destruct (literalCI (str "experience") r6).
Qed.

Lemma experienceMatch_lower (s : jsstring) :
  experienceMatch (toLowerCase s) = experienceMatch s.
Proof.
  induction s as [|c r IH].
  - reflexivity.
  - change (toLowerCase (c :: r)) with (lowerChar c :: toLowerCase r).
    cbn [experienceMatch].
    change (lowerChar c :: toLowerCase r) with (toLowerCase (c :: r)).
    rewrite experienceAt_lower. destruct (experienceAt (c :: r)); [reflexivity|exact IH].
Qed.

Lemma existsb_lowered (lower : jsstring) (l : list jsstring) :
  existsb (fun x => includes lower (toLowerCase x)) (map toLowerCase l)
  = existsb (fun x => includes lower (toLowerCase x)) l.
Proof.
  induction l as [|x l IH]; simpl; [reflexivity|].
  now rewrite toLowerCase_idem, IH.
Qed.

(** X21. [checkRequirementMet] ignores letter case, of the requirement line
    and of the certifications and capabilities of the profile. *)
Theorem checkRequirementMet_ignores_case
  (company : CompanyDetails) (requirement : jsstring) :
  checkRequirementMet company (toLowerCase requirement)
  = checkRequirementMet company requirement
  /\ checkRequirementMet
       {| companyName := companyName company;
          certifications := map toLowerCase (certifications company);
          experience := experience company;
          capabilities := map toLowerCase (capabilities company);
          registrations := registrations company |}
       requirement
     = checkRequirementMet company requirement.
Proof.
  unfold checkRequirementMet. cbn [certifications experience capabilities].
  rewrite toLowerCase_idem, experienceMatch_lower. split; [reflexivity|].
  now rewrite !existsb_lowered.
Qed.

End LetterCase.

(** ** ingestRfpDocument *)

Section Ingestion.
Import VectorStore RfpAnalyzer RfpIngestionService.
Context {chroma : ChromaClient}.
Variable clientMessage : ClientErr -> jsstring.

Lemma chunkDocument_some_chunk (text : jsstring) (chunkSize overlap : Z) (fuel : nat) :
  0 <= chunkSize ->
  overlap < chunkSize ->
  (List.length text < fuel)%nat ->
  exists chunk chunks,
    chunkDocument fuel text chunkSize overlap = Some (chunk :: chunks).
Proof.
  intros Hsz Hov Hfuel. unfold chunkDocument.
  destruct (length text <=? chunkSize) eqn:Hle; [eauto|].
  apply Z.leb_gt in Hle. rewrite chunkLoop_windows.
  destruct (chunkWindows_terminates text chunkSize overlap Hov fuel 0) as [ws Hws].
  { unfold length. lia. }
  rewrite Hws. destruct fuel as [|fuel]; [lia|]. simpl in Hws.
  destruct (0 <? length text) eqn:H0; [|apply Z.ltb_ge in H0; lia].
  destruct (chunkWindows fuel text chunkSize overlap _); [|discriminate].
  injection Hws as <-. simpl. eauto.
Qed.

Lemma to_int_proper (z : Z) :
  Z.to_int z <> Decimal.Pos Decimal.Nil /\ Z.to_int z <> Decimal.Neg Decimal.Nil.
Proof.
  destruct z; simpl; split; try discriminate; intros [= H];
    now apply (DecimalPos.Unsigned.to_uint_nonnil p).
Qed.

(** Different numbers are written differently. *)
Lemma showZ_injective (z1 z2 : Z) : showZ z1 = showZ z2 -> z1 = z2.
Proof.
  unfold showZ, str. intros H.
  apply (f_equal string_of_list_ascii) in H.
  rewrite !string_of_list_ascii_of_string in H.
  destruct (to_int_proper z1) as [A1 B1]. destruct (to_int_proper z2) as [A2 B2].
  pose proof (NilZero.isi _ A1 B1) as E1. pose proof (NilZero.isi _ A2 B2) as E2.
  rewrite H, E2 in E1. injection E1 as E.
  now rewrite <- (DecimalZ.of_to z1), <- (DecimalZ.of_to z2), E.
Qed.

Lemma mapIndexed_In {A B} (f : A -> nat -> B) (l : list A) (k : nat) (b : B) :
  In b (mapIndexed f k l) -> exists x i, (k <= i)%nat /\ b = f x i.
Proof.
  revert k; induction l as [|x l IH]; intros k; simpl; [intros []|].
  intros [<-|H].
  - exists x, k. split; [lia|reflexivity].
  - apply IH in H as (y & i & Hi & ->). exists y, i. split; [lia|reflexivity].
Qed.

Lemma chunk_ids_distinct (rfpId : jsstring) (f : jsstring -> nat -> Document)
  (chunks : list jsstring) (k : nat) :
  (forall chunk index,
      doc_id (f chunk index) = rfpId ++ str "-chunk-" ++ showZ (Z.of_nat index)) ->
  NoDup (map doc_id (mapIndexed f k chunks)).
Proof.
  intros Hid. revert k; induction chunks as [|c chunks IH]; intros k; simpl;
    [constructor|].
  constructor; [|apply IH].
  intros Hin. apply in_map_iff in Hin as (d & Hd & Hin).
  apply mapIndexed_In in Hin as (x & i & Hi & ->).
  rewrite !Hid in Hd.
  apply app_inv_head, app_inv_head, showZ_injective in Hd. lia.
Qed.

Lemma chunk_contents (f : jsstring -> nat -> Document) (chunks : list jsstring) (k : nat) :
  (forall chunk index, doc_content (f chunk index) = chunk) ->
  map doc_content (mapIndexed f k chunks) = chunks.
Proof.
  intros Hc. revert k; induction chunks as [|c chunks IH]; intros k; simpl;
    [reflexivity|].
  now rewrite Hc, IH.
Qed.

(** X22. A file that is neither a PDF nor plain text (by type, or by a name
    ending in ".txt") is refused with "Unsupported file type" before
    anything is sent to the vector store: store and database stay as they
    were. *)
Theorem unsupported_file_never_reaches_store
  (file : File) (metadata : RfpMetadata) (rfpId now : jsstring) (s : Store * World) :
  fileType file <> str "application/pdf" ->
  fileType file <> str "text/plain" ->
  endsWith (fileName file) (str ".txt") = false ->
  ingestRfpDocument clientMessage file metadata rfpId now s
  = Some (inl (str "Failed to ingest RFP document: Unsupported file type: "
               ++ fileType file), s).
Proof.
  intros Hpdf Htxt Hname. unfold ingestRfpDocument, processFile.
  destruct (list_eq_dec ascii_dec (fileType file) (str "application/pdf"));
    [contradiction|].
  destruct (list_eq_dec ascii_dec (fileType file) (str "text/plain"));
    [contradiction|].
  rewrite Hname. reflexivity.
Qed.

(** X23. An empty text file is not ingested as an empty document: the
    reader's empty result counts as a failure, and the ingestion is refused
    with "Failed to read text file" without touching the store. *)
Theorem empty_text_file_is_refused
  (file : File) (metadata : RfpMetadata) (rfpId now : jsstring) (s : Store * World) :
  fileType file = str "text/plain" ->
  textResult file = Some [] ->
  ingestRfpDocument clientMessage file metadata rfpId now s
  = Some (inl (str "Failed to ingest RFP document: Failed to read text file"), s).
Proof.
  intros Htype Hres. unfold ingestRfpDocument, processFile, processTextFile.
  rewrite Htype, Hres. reflexivity.
Qed.

(** X24. Once the text of a file is extracted, the ingestion always gets
    through the chunking, with at least one chunk; it hands the store one
    record per chunk, in order, under pairwise different ids
    [<rfpId>-chunk-<index>]; it returns the id when [addDocuments] returns
    and otherwise throws an error with the message of the cause. *)
Theorem ingestion_records
  (file : File) (metadata : RfpMetadata) (rfpId now content : jsstring)
  (s : Store * World) :
  processFile file = inr content ->
  exists chunk chunks,
    chunkDocument (S (List.length (cleanText content))) (cleanText content)
      defaultChunkSize defaultOverlap = Some (chunk :: chunks)
    /\ NoDup (map doc_id
                (chunkRecords rfpId (documentMetadata file metadata rfpId now)
                   (chunk :: chunks)))
    /\ map doc_content
         (chunkRecords rfpId (documentMetadata file metadata rfpId now)
            (chunk :: chunks)) = chunk :: chunks
    /\ ingestRfpDocument clientMessage file metadata rfpId now s
       = Some (match addDocuments
                       (chunkRecords rfpId (documentMetadata file metadata rfpId now)
                          (chunk :: chunks)) s with
               | (Returned _, s') => (inr rfpId, s')
               | (Threw e, s') =>
                   (inl (str "Failed to ingest RFP document: "
                         ++ errorMessage clientMessage e), s')
               end).
Proof.
  intros Hfile.
  destruct (chunkDocument_some_chunk (cleanText content) defaultChunkSize
              defaultOverlap (S (List.length (cleanText content))))
    as (chunk & chunks & Hchunks); [unfold defaultChunkSize; lia
                                   |unfold defaultChunkSize, defaultOverlap; lia
                                   |lia|].
  exists chunk, chunks. split; [exact Hchunks|]. split; [|split].
  - unfold chunkRecords. apply (chunk_ids_distinct rfpId). reflexivity.
  - unfold chunkRecords. now apply chunk_contents.
  - unfold ingestRfpDocument. rewrite Hfile. cbv zeta. rewrite Hchunks.
    now destruct (addDocuments _ s) as [[u|e] s'].
Qed.

End Ingestion.

Section IngestionExamples.
Import VectorStore RfpAnalyzer RfpIngestionService.

Lemma unsupported_file_never_reaches_store_witness :
  ingestRfpDocument (chroma := plainClient) (fun e => e) wordFile sampleMetadata
    (str "id-1") (str "2025-01-01T00:00:00.000Z") (fresh, [])
  = Some (inl (str "Failed to ingest RFP document: Unsupported file type: "
               ++ fileType wordFile), (fresh, [])).
Proof.
  apply (unsupported_file_never_reaches_store (chroma := plainClient) (fun e => e)
           wordFile sampleMetadata (str "id-1") (str "2025-01-01T00:00:00.000Z")
           (fresh, []));
    vm_compute; (reflexivity || discriminate).
Defined.

Lemma empty_text_file_is_refused_witness :
  ingestRfpDocument (chroma := plainClient) (fun e => e) emptyTextFile sampleMetadata
    (str "id-1") (str "2025-01-01T00:00:00.000Z") (fresh, [])
  = Some (inl (str "Failed to ingest RFP document: Failed to read text file"),
          (fresh, [])).
Proof.
  apply (empty_text_file_is_refused (chroma := plainClient) (fun e => e)
           emptyTextFile sampleMetadata (str "id-1") (str "2025-01-01T00:00:00.000Z")
           (fresh, []));
    reflexivity.
Defined.

Lemma ingestion_records_witness :
  exists chunk chunks,
    chunkDocument (S (List.length (cleanText (str "Must  have ISO 9001.  "))))
      (cleanText (str "Must  have ISO 9001.  ")) defaultChunkSize defaultOverlap
    = Some (chunk :: chunks)
    /\ NoDup (map doc_id
                (chunkRecords (str "id-1")
                   (documentMetadata smallTextFile sampleMetadata (str "id-1")
                      (str "2025-01-01T00:00:00.000Z"))
                   (chunk :: chunks)))
    /\ map doc_content
         (chunkRecords (str "id-1")
            (documentMetadata smallTextFile sampleMetadata (str "id-1")
               (str "2025-01-01T00:00:00.000Z"))
            (chunk :: chunks)) = chunk :: chunks
    /\ ingestRfpDocument (chroma := plainClient) (fun e => e) smallTextFile
         sampleMetadata (str "id-1") (str "2025-01-01T00:00:00.000Z") (fresh, [])
       = Some (match addDocuments (chroma := plainClient)
                       (chunkRecords (str "id-1")
                          (documentMetadata smallTextFile sampleMetadata (str "id-1")
                             (str "2025-01-01T00:00:00.000Z"))
                          (chunk :: chunks)) (fresh, []) with
               | (Returned _, s') => (inr (str "id-1"), s')
               | (Threw e, s') =>
                   (inl (str "Failed to ingest RFP document: "
                         ++ errorMessage (chroma := plainClient) (fun e => e) e), s')
               end).
Proof.
  apply (ingestion_records (chroma := plainClient) (fun e => e) smallTextFile
           sampleMetadata (str "id-1") (str "2025-01-01T00:00:00.000Z")
           (str "Must  have ISO 9001.  ") (fresh, [])).
  reflexivity.
Defined.

End IngestionExamples.
